(** * logger/logger.py: colourised console logging plus plain file logging

    A shallow embedding of [src/logger/logger.py] together with the part of
    CPython's [logging], [os] and [posixpath] modules that the file calls.

    Conventions of the model.
    - Python [str] values are [string]s of ASCII characters.
    - Severity levels are the integers of [logging] ([Z]).
    - The process state ([World]) holds [os.environ], the logger registry of
      [logging] (the root logger and [Manager.loggerDict], with the parent
      pointers and the placeholders the manager keeps), the file system as
      far as the log file is concerned, the file objects created so far and
      which of them are closed, and the text written to [sys.stderr].
    - A Python call that can raise is a computation in the monad [M], which
      threads the [World] and returns either an exception or a value; the
      state changes made before a [raise] are kept, as in Python. *)

From Stdlib Require Import ZArith Ascii String DecimalString.
From stdpp Require Import base option list strings gmap.

Local Open Scope string_scope.
Local Open Scope Z_scope.

(** ** Strings *)

Module Str.

Definition ESC : ascii := ascii_of_nat 27.
Definition LF : ascii := ascii_of_nat 10.
Definition NUL : ascii := ascii_of_nat 0.

(** [str.upper] on ASCII text. *)
Definition upper_char (c : ascii) : ascii :=
  let n := nat_of_ascii c in
  if ((97 <=? n) && (n <=? 122))%nat then ascii_of_nat (n - 32) else c.

Fixpoint upper (s : string) : string :=
  match s with
  | EmptyString => EmptyString
  | String c rest => String (upper_char c) (upper rest)
  end.

Definition is_empty (s : string) : bool :=
  match s with EmptyString => true | _ => false end.

Fixpoint last_char (s : string) : option ascii :=
  match s with
  | EmptyString => None
  | String c EmptyString => Some c
  | String _ rest => last_char rest
  end.

(** [s.startswith("/")] and [s.endswith("/")]. *)
Definition starts_with_sep (s : string) : bool :=
  match s with String "/" _ => true | _ => false end.

Definition ends_with_sep (s : string) : bool :=
  match last_char s with Some "/"%char => true | _ => false end.

Fixpoint drop (n : nat) (s : string) : string :=
  match n, s with
  | O, _ => s
  | S _, EmptyString => EmptyString
  | S k, String _ rest => drop k rest
  end.

(** ["%s" % n] for an integer. *)
Definition of_Z (n : Z) : string := NilZero.string_of_int (Z.to_int n).

End Str.

(** ** [logging]: levels *)

Definition CRITICAL : Z := 50.
Definition ERROR : Z := 40.
Definition WARNING : Z := 30.
Definition INFO : Z := 20.
Definition DEBUG : Z := 10.
Definition NOTSET : Z := 0.

(** [logging._nameToLevel], the table [_checkLevel] consults. *)
Definition _nameToLevel (name : string) : option Z :=
  if String.eqb name "CRITICAL" then Some CRITICAL
  else if String.eqb name "FATAL" then Some CRITICAL
  else if String.eqb name "ERROR" then Some ERROR
  else if String.eqb name "WARN" then Some WARNING
  else if String.eqb name "WARNING" then Some WARNING
  else if String.eqb name "INFO" then Some INFO
  else if String.eqb name "DEBUG" then Some DEBUG
  else if String.eqb name "NOTSET" then Some NOTSET
  else None.

(** [logging._levelToName]. *)
Definition _levelToName (level : Z) : option string :=
  if level =? CRITICAL then Some "CRITICAL"
  else if level =? ERROR then Some "ERROR"
  else if level =? WARNING then Some "WARNING"
  else if level =? INFO then Some "INFO"
  else if level =? DEBUG then Some "DEBUG"
  else if level =? NOTSET then Some "NOTSET"
  else None.

(** [logging.getLevelName] at an integer level. *)
Definition getLevelName (level : Z) : string :=
  match _levelToName level with
  | Some n => n
  | None => "Level " ++ Str.of_Z level
  end.

(** ** [logging.LogRecord]

    The attributes the two formatters read.  [message] is the result of
    [record.getMessage()]; [exc_text] and [stack_info] are empty when the call
    carried no exception and no stack information. *)
Record LogRecord := mkRecord {
  levelno : Z;
  levelname : string;
  message : string;
  exc_text : string;
  stack_info : string
}.

(** [Logger.makeRecord] for a plain call such as [logger.info(msg)]. *)
Definition makeRecord (level : Z) (msg : string) : LogRecord :=
  {| levelno := level; levelname := getLevelName level; message := msg;
     exc_text := ""; stack_info := "" |}.

(** ** Formatters *)

(** The two format strings in use: ["%(message)s"], the default of
    [logging.Formatter()], and ['{levelname} - {message}'] with [style='{']. *)
Inductive Template := MessageOnly | LevelnameMessage.

(** [Formatter.formatMessage]. *)
Definition formatMessage (fmt : Template) (record : LogRecord) : string :=
  match fmt with
  | MessageOnly => message record
  | LevelnameMessage => levelname record ++ " - " ++ message record
  end.

(** [s[-1:] != "\n"] then [s + "\n"], as [Formatter.format] does before it
    appends exception or stack text. *)
Definition ensure_newline (s : string) : string :=
  match Str.last_char s with
  | Some c => if Ascii.eqb c Str.LF then s else s ++ String Str.LF ""
  | None => s ++ String Str.LF ""
  end.

(** [logging.Formatter.format]. *)
Definition Formatter_format (fmt : Template) (record : LogRecord) : string :=
  let s := formatMessage fmt record in
  let s := if Str.is_empty (exc_text record) then s
           else ensure_newline s ++ exc_text record in
  let s := if Str.is_empty (stack_info record) then s
           else ensure_newline s ++ stack_info record in
  s.

Module ColoredFormatter.

Definition code (body : string) : string := String Str.ESC body.

(** The class attribute [COLORS], a dict keyed by level number. *)
Definition COLORS : gmap Z string :=
  <[DEBUG := code "[95m"]>
  (<[INFO := code "[97m"]>
  (<[WARNING := code "[93m"]>
  (<[ERROR := code "[91m"]>
  (<[CRITICAL := code "[91m"]> ∅)))).

Definition RESET : string := code "[0m".

(** [ColoredFormatter.format]; [fmt] is the format string the instance was
    built with, which [super().format] uses. *)
Definition format (fmt : Template) (record : LogRecord) : string :=
  let color := default RESET (COLORS !! levelno record) in
  let message := Formatter_format fmt record in
  color ++ message ++ RESET.

End ColoredFormatter.

(** A formatter object: an instance of [logging.Formatter] or of
    [ColoredFormatter], with its format string. *)
Inductive Formatter :=
| PlainFormatter (fmt : Template)
| ColorFormatter (fmt : Template).

Definition format_with (f : Formatter) (record : LogRecord) : string :=
  match f with
  | PlainFormatter fmt => Formatter_format fmt record
  | ColorFormatter fmt => ColoredFormatter.format fmt record
  end.

(** [logging._defaultFormatter = Formatter()]. *)
Definition _defaultFormatter : Formatter := PlainFormatter MessageOnly.

(** ** Handlers *)

(** The stream a [StreamHandler] writes to: [sys.stderr], or the file object
    a [FileHandler] opened, named by its index in the table of open files. *)
Inductive Stream := Stderr | FileStream (fd : nat).

Record Handler := mkHandler {
  stream : Stream;
  hlevel : Z;
  formatter : option Formatter
}.

(** [Handler.format]. *)
Definition Handler_format (h : Handler) (record : LogRecord) : string :=
  format_with (default _defaultFormatter (formatter h)) record.

Definition setFormatter (h : Handler) (f : Formatter) : Handler :=
  {| stream := stream h; hlevel := hlevel h; formatter := Some f |}.

(** [StreamHandler.terminator]. *)
Definition terminator : string := String Str.LF "".



(** ** Loggers and the process state *)

(** A reference to a logger object: the root logger, or the logger that
    [Manager.loggerDict] holds under a name. *)
Inductive LoggerRef := RootLogger | Named (name : string).

#[global] Instance LoggerRef_eq_dec : EqDecision LoggerRef.
Proof. solve_decision. Defined.

(** [logger.name]; the root logger's name is "root". *)
Definition ref_name (r : LoggerRef) : string :=
  match r with RootLogger => "root" | Named name => name end.

Record Logger := mkLogger {
  level : Z;
  handlers : list Handler;
  propagate : bool;
  disabled : bool;
  parent : option LoggerRef          (* None for the root logger *)
}.

(** [Logger(name)]: level NOTSET, no handlers, propagating, enabled, and no
    parent until [Manager._fixupParents] sets one. *)
Definition Logger_new : Logger :=
  {| level := NOTSET; handlers := []; propagate := true; disabled := false;
     parent := None |}.

(** A value of [Manager.loggerDict]: a logger, or a [PlaceHolder] with the
    names of the loggers in its [loggerMap]. *)
Inductive Entry :=
| IsLogger (l : Logger)
| PlaceHolder (loggerMap : list string).

(** A file object: the path it was opened at and its write position.
    A file is identified by the path string handed to [open]; the working
    directory is fixed, and two spellings of one path are not identified. *)
Record OpenFile := mkOpenFile {
  path : string;
  pos : nat
}.

Record World := mkWorld {
  environ : gmap string string;      (* os.environ *)
  root : Logger;                     (* logging.root *)
  loggerDict : gmap string Entry;    (* Manager.loggerDict *)
  manager_disable : Z;               (* Manager.disable *)
  files : gmap string string;        (* regular files, by path *)
  unwritable : gset string;          (* paths at which open(path, 'w') fails *)
  open_files : list OpenFile;        (* the file objects created, in order *)
  closed : gset nat;                 (* those of them that are closed *)
  stderr : string                    (* everything written to sys.stderr *)
}.

Definition set_root (f : Logger → Logger) (w : World) : World :=
  {| environ := environ w; root := f (root w); loggerDict := loggerDict w;
     manager_disable := manager_disable w; files := files w;
     unwritable := unwritable w; open_files := open_files w;
     closed := closed w; stderr := stderr w |}.

Definition set_loggerDict (f : gmap string Entry → gmap string Entry)
    (w : World) : World :=
  {| environ := environ w; root := root w; loggerDict := f (loggerDict w);
     manager_disable := manager_disable w; files := files w;
     unwritable := unwritable w; open_files := open_files w;
     closed := closed w; stderr := stderr w |}.

Definition set_files (f : gmap string string → gmap string string)
    (g : list OpenFile → list OpenFile) (w : World) : World :=
  {| environ := environ w; root := root w; loggerDict := loggerDict w;
     manager_disable := manager_disable w; files := f (files w);
     unwritable := unwritable w; open_files := g (open_files w);
     closed := closed w; stderr := stderr w |}.

Definition set_closed (f : gset nat → gset nat) (w : World) : World :=
  {| environ := environ w; root := root w; loggerDict := loggerDict w;
     manager_disable := manager_disable w; files := files w;
     unwritable := unwritable w; open_files := open_files w;
     closed := f (closed w); stderr := stderr w |}.

Definition set_stderr (f : string → string) (w : World) : World :=
  {| environ := environ w; root := root w; loggerDict := loggerDict w;
     manager_disable := manager_disable w; files := files w;
     unwritable := unwritable w; open_files := open_files w;
     closed := closed w; stderr := f (stderr w) |}.

(** The state of a process that has imported [logging] and done nothing else:
    the root logger at WARNING without handlers, an empty registry. *)
Definition initial_world (env : gmap string string) (fs : gmap string string)
    (bad : gset string) : World :=
  {| environ := env;
     root := {| level := WARNING; handlers := []; propagate := true;
                disabled := false; parent := None |};
     loggerDict := ∅; manager_disable := 0; files := fs; unwritable := bad;
     open_files := []; closed := ∅; stderr := "" |}.

(** ** The monad of Python calls: state plus exceptions *)

Inductive Exn :=
| ValueError (unknown_level : string)   (* ValueError("Unknown level: ...") *)
| OSError (filename : string).          (* open() failed *)

Definition M (A : Type) : Type := World → World * (Exn + A).

Definition ret {A} (a : A) : M A := λ w, (w, inr a).

Definition raise {A} (e : Exn) : M A := λ w, (w, inl e).

Definition bind {A B} (m : M A) (k : A → M B) : M B :=
  λ w, match m w with
       | (w', inr a) => k a w'
       | (w', inl e) => (w', inl e)
       end.

Definition modify (f : World → World) : M unit := λ w, (f w, inr tt).

Definition gets {A} (f : World → A) : M A := λ w, (w, inr (f w)).

Notation "x <~ m ;; k" := (bind m (λ x, k))
  (at level 100, m at next level, right associativity).
Notation "m ;;; k" := (bind m (λ _, k))
  (at level 100, right associativity).

(** The state a call leaves behind, and whether it returned. *)
Definition world_after {A} (m : M A) (w : World) : World := fst (m w).
Definition outcome {A} (m : M A) (w : World) : Exn + A := snd (m w).

(** ** [os.environ.get] and [os.path.join] *)

Definition os_environ_get (env : gmap string string) (key dflt : string)
    : string :=
  default dflt (env !! key).

(** [posixpath.join(a, b)]. *)
Definition os_path_join (a b : string) : string :=
  if Str.starts_with_sep b then b
  else if Str.is_empty a || Str.ends_with_sep a then a ++ b
  else a ++ "/" ++ b.

(** ** Files *)

(** Writing [data] at offset [pos] of a file holding [content]; the gap
    left by an earlier truncation reads as NUL bytes. *)
Fixpoint write_at (pos : nat) (data content : string) : string :=
  match pos with
  | O => data ++ Str.drop (String.length data) content
  | S p =>
      match content with
      | EmptyString => String Str.NUL (write_at p data EmptyString)
      | String c rest => String c (write_at p data rest)
      end
  end.

(** [open(filename, 'w')]: fails with [OSError] at an unwritable path;
    otherwise creates or truncates the file and returns a new file object
    positioned at offset 0. *)
Definition open_w (filename : string) : M nat :=
  λ w, if decide (filename ∈ unwritable w) then (w, inl (OSError filename))
       else (set_files (λ fs, <[filename := ""]> fs)
                       (λ ofs, (ofs ++ [mkOpenFile filename 0])%list) w,
             inr (length (open_files w))).

(** [f.write(data); f.flush()] on an open file object.  (The file objects
    that get closed here are those of handlers that were never attached to a
    logger, see [Handler_reclaim]; nothing writes through them.) *)
Definition write_fd (fd : nat) (data : string) (w : World) : World :=
  match open_files w !! fd with
  | Some f =>
      set_files
        (λ fs, <[path f := write_at (pos f) data (default "" (fs !! path f))]> fs)
        (λ ofs, <[fd := mkOpenFile (path f) (pos f + String.length data)]> ofs)
        w
  | None => w
  end.

(** [f.close()]. *)
Definition close_fd (fd : nat) (w : World) : World :=
  set_closed (λ c, {[fd]} ∪ c) w.

Definition stream_write (s : Stream) (data : string) (w : World) : World :=
  match s with
  | Stderr => set_stderr (λ out, out ++ data) w
  | FileStream fd => write_fd fd data w
  end.

(** ** [logging]: handlers *)

(** [logging._checkLevel] on a string argument. *)
Definition _checkLevel (level : string) : M Z :=
  match _nameToLevel level with
  | Some rv => ret rv
  | None => raise (ValueError level)
  end.

(** [logging.StreamHandler()]: writes to [sys.stderr]. *)
Definition StreamHandler_new : Handler :=
  {| stream := Stderr; hlevel := NOTSET; formatter := None |}.

(** [logging.FileHandler(filename, mode='w')]: the file is opened at
    construction ([delay] is false). *)
Definition FileHandler_new (filename : string) : M Handler :=
  fd <~ open_w filename ;;
  ret {| stream := FileStream fd; hlevel := NOTSET; formatter := None |}.

(** [Handler.setLevel(level)] with a level name. *)
Definition Handler_setLevel (h : Handler) (level : string) : M Handler :=
  rv <~ _checkLevel level ;;
  ret {| stream := stream h; hlevel := rv; formatter := formatter h |}.

(** [StreamHandler.emit], reached through [Handler.handle]. *)
Definition Handler_handle (h : Handler) (record : LogRecord) (w : World)
    : World :=
  stream_write (stream h) (Handler_format h record ++ terminator) w.

(** A handler object that nothing refers to any more is reclaimed by
    CPython's reference counting, and with it the file object a
    [FileHandler] opened, which closes the file; [sys.stderr] is not the
    handler's own and stays open. *)
Definition Handler_reclaim (h : Handler) : M unit :=
  match stream h with
  | Stderr => ret tt
  | FileStream fd => modify (close_fd fd)
  end.

(** [logging.lastResort], used when no handler is found. *)
Definition lastResort : Handler :=
  {| stream := Stderr; hlevel := WARNING; formatter := None |}.

(** ** [logging]: the logger hierarchy *)

(** The logger an entry of the registry stands for.  A name that is not
    registered yet, or only has a placeholder, reads as the logger
    [Manager.getLogger] would create for it. *)
Definition entry_logger (e : option Entry) : Logger :=
  match e with
  | Some (IsLogger l) => l
  | _ => Logger_new
  end.

(** The logger behind a reference. *)
Definition the_logger (w : World) (r : LoggerRef) : Logger :=
  match r with
  | RootLogger => root w
  | Named name => entry_logger (loggerDict w !! name)
  end.

Definition update_logger (r : LoggerRef) (f : Logger → Logger) (w : World)
    : World :=
  match r with
  | RootLogger => set_root f w
  | Named name =>
      set_loggerDict (λ d, <[name := IsLogger (f (entry_logger (d !! name)))]> d) w
  end.

Definition set_level (lvl : Z) (l : Logger) : Logger :=
  {| level := lvl; handlers := handlers l; propagate := propagate l;
     disabled := disabled l; parent := parent l |}.

Definition append_handler (hdlr : Handler) (l : Logger) : Logger :=
  {| level := level l; handlers := (handlers l ++ [hdlr])%list;
     propagate := propagate l; disabled := disabled l; parent := parent l |}.

Definition set_parent (p : LoggerRef) (l : Logger) : Logger :=
  {| level := level l; handlers := handlers l; propagate := propagate l;
     disabled := disabled l; parent := Some p |}.


(** The names [Manager._fixupParents] tries, nearest first: [name[:i]] for
    [i = name.rfind(".")], then [i = name.rfind(".", 0, i - 1)], while
    [i > 0].  The argument [e] is the exclusive end of the next [rfind]. *)
Fixpoint rfind_prefixes (name : string) (e : nat) : list string :=
  match e with
  | O => []
  | S j =>
      match String.get j name with
      | Some "."%char =>
          match j with
          | O => []
          | S k => String.substring 0 j name :: rfind_prefixes name k
          end
      | _ => rfind_prefixes name j
      end
  end.

(** [PlaceHolder.append]. *)
Definition PlaceHolder_append (loggerMap : list string) (name : string)
    : list string :=
  if bool_decide (name ∈ loggerMap) then loggerMap
  else (loggerMap ++ [name])%list.

(** The loop of [Manager._fixupParents] over the names to try: a name
    without entry gets a placeholder holding the logger, a placeholder gets
    the logger appended, and the first logger found ends the loop as [rv];
    without one, [rv] is the root. *)
Fixpoint _fixupParents_loop (name : string) (tries : list string)
    (d : gmap string Entry) : gmap string Entry * LoggerRef :=
  match tries with
  | [] => (d, RootLogger)
  | substr :: rest =>
      match d !! substr with
      | None =>
          _fixupParents_loop name rest (<[substr := PlaceHolder [name]]> d)
      | Some (IsLogger _) => (d, Named substr)
      | Some (PlaceHolder loggerMap) =>
          _fixupParents_loop name rest
            (<[substr := PlaceHolder (PlaceHolder_append loggerMap name)]> d)
      end
  end.

(** [Manager._fixupParents(alogger)]; it ends with [alogger.parent = rv]. *)
Definition _fixupParents (name : string) (d : gmap string Entry)
    : gmap string Entry :=
  let '(d, rv) :=
    _fixupParents_loop name (rfind_prefixes name (String.length name)) d in
  <[name := IsLogger (set_parent rv (entry_logger (d !! name)))]> d.

(** One turn of the loop of [Manager._fixupChildren]: the child [c] of the
    placeholder is put under the new logger unless the name of its present
    parent starts with the new logger's name.  (The assignment to
    [alogger.parent] in that loop is overwritten by [_fixupParents], which
    runs next.) *)
Definition _fixupChildren_step (name : string) (d : gmap string Entry)
    (c : string) : gmap string Entry :=
  match d !! c with
  | Some (IsLogger l) =>
      match parent l with
      | Some p =>
          if String.eqb (String.substring 0 (String.length name) (ref_name p))
                        name
          then d
          else <[c := IsLogger (set_parent (Named name) l)]> d
      | None => d
      end
  | _ => d
  end.

(** [Manager._fixupChildren(ph, alogger)]. *)
Definition _fixupChildren (loggerMap : list string) (name : string)
    (d : gmap string Entry) : gmap string Entry :=
  fold_left (_fixupChildren_step name) loggerMap d.

(** [Manager.getLogger(name)]: the registered logger; a new one takes the
    place of a placeholder, or is added, and is linked into the hierarchy. *)
Definition Manager_getLogger (name : string) : M LoggerRef :=
  λ w, match loggerDict w !! name with
       | Some (IsLogger _) => (w, inr (Named name))
       | Some (PlaceHolder ph) =>
           (set_loggerDict
              (λ d, _fixupParents name
                      (_fixupChildren ph name
                         (<[name := IsLogger Logger_new]> d))) w,
            inr (Named name))
       | None =>
           (set_loggerDict
              (λ d, _fixupParents name (<[name := IsLogger Logger_new]> d)) w,
            inr (Named name))
       end.

(** [logging.getLogger(name)]: the root logger for an empty name or the
    root's own name, otherwise the manager's logger. *)
Definition logging_getLogger (name : string) : M LoggerRef :=
  if Str.is_empty name || String.eqb name "root" then ret RootLogger
  else Manager_getLogger name.

(** [Logger.setLevel(level)] with an integer level. *)
Definition Logger_setLevel (r : LoggerRef) (lvl : Z) : M unit :=
  modify (update_logger r (set_level lvl)).

(** [Logger.addHandler(hdlr)] for a handler object that is not attached yet. *)
Definition Logger_addHandler (r : LoggerRef) (hdlr : Handler) : M unit :=
  modify (update_logger r (append_handler hdlr)).

(** The loggers [c], [c.parent], [c.parent.parent], ... that the loops
    [while c: ...; c = c.parent] of [logging] visit, at most [fuel] of
    them. *)
Fixpoint lineage_from (w : World) (fuel : nat) (r : LoggerRef)
    : list Logger :=
  match fuel with
  | O => []
  | S fuel' =>
      let c := the_logger w r in
      c :: match parent c with
           | Some p => lineage_from w fuel' p
           | None => []
           end
  end.

(** How far a logger can be from the top of the hierarchy: the root is at
    depth 0, a logger with a name of [n] characters at depth [n + 1] at
    most, since the parent of a logger is the root or has a shorter name. *)
Definition ref_depth (r : LoggerRef) : nat :=
  match r with RootLogger => O | Named name => S (String.length name) end.

(** The whole chain from a logger to the root; it has at most
    [S (ref_depth r)] loggers. *)
Definition lineage (w : World) (r : LoggerRef) : list Logger :=
  lineage_from w (S (ref_depth r)) r.

(** The chain above a logger: [r.parent], [r.parent.parent], ... *)
Definition parent_loggers (w : World) (r : LoggerRef) : list Logger :=
  match parent (the_logger w r) with
  | Some p => lineage_from w (ref_depth r) p
  | None => []
  end.
(** The loop of [Logger.hasHandlers] over [c], [c.parent], ...: true at the
    first logger with a handler, false after a logger that does not
    propagate or past the root. *)
Fixpoint hasHandlers_from (cs : list Logger) : bool :=
  match cs with
  | [] => false
  | c :: up =>
      match handlers c with
      | _ :: _ => true
      | [] => if negb (propagate c) then false else hasHandlers_from up
      end
  end.

Definition hasHandlers (w : World) (r : LoggerRef) : bool :=
  hasHandlers_from (lineage w r).

Definition Logger_hasHandlers (r : LoggerRef) : M bool :=
  gets (λ w, hasHandlers w r).

(** [Logger.getEffectiveLevel]: the first non-zero level up the parents. *)
Fixpoint getEffectiveLevel_from (cs : list Logger) : Z :=
  match cs with
  | [] => NOTSET
  | c :: up => if level c =? 0 then getEffectiveLevel_from up else level c
  end.

Definition getEffectiveLevel (w : World) (r : LoggerRef) : Z :=
  getEffectiveLevel_from (lineage w r).

(** [Logger.isEnabledFor(level)]. *)
Definition isEnabledFor (w : World) (r : LoggerRef) (lvl : Z) : bool :=
  if disabled (the_logger w r) then false
  else if manager_disable w >=? lvl then false
  else lvl >=? getEffectiveLevel w r.

(** The inner loop of [Logger.callHandlers]: every handler of one logger. *)
Fixpoint call_each (hs : list Handler) (record : LogRecord) (found : nat)
    (w : World) : nat * World :=
  match hs with
  | [] => (found, w)
  | hdlr :: rest =>
      call_each rest record (S found)
        (if levelno record >=? hlevel hdlr then Handler_handle hdlr record w
         else w)
  end.

(** The outer loop of [Logger.callHandlers] over [c], [c.parent], ... *)
Fixpoint callHandlers_from (cs : list Logger) (record : LogRecord)
    (found : nat) (w : World) : nat * World :=
  match cs with
  | [] => (found, w)
  | c :: up =>
      let '(found, w) := call_each (handlers c) record found w in
      if negb (propagate c) then (found, w)
      else callHandlers_from up record found w
  end.

(** [Logger.callHandlers(record)]. *)
Definition callHandlers (r : LoggerRef) (record : LogRecord) (w : World)
    : World :=
  let '(found, w) := callHandlers_from (lineage w r) record 0 w in
  match found with
  | O => if levelno record >=? hlevel lastResort
         then Handler_handle lastResort record w else w
  | S _ => w
  end.

(** [Logger.handle(record)]. *)
Definition Logger_handle (r : LoggerRef) (record : LogRecord) (w : World)
    : World :=
  if negb (disabled (the_logger w r)) then callHandlers r record w else w.

(** [logger.debug(msg)], [logger.info(msg)], ...: a call at level [lvl]
    without arguments. *)
Definition Logger_log (r : LoggerRef) (lvl : Z) (msg : string) (w : World)
    : World :=
  if isEnabledFor w r lvl then Logger_handle r (makeRecord lvl msg) w else w.

Definition Logger_info (r : LoggerRef) (msg : string) : World → World :=
  Logger_log r INFO msg.

Definition Logger_error (r : LoggerRef) (msg : string) : World → World :=
  Logger_log r ERROR msg.

(** ** [logger.py]: [getLogger] *)

(** Lines 41-44: the four settings read from the environment. *)
Definition console_log_level (env : gmap string string) : string :=
  Str.upper (os_environ_get env "CONSOLE_LOG_LEVEL" "INFO").

Definition file_log_level (env : gmap string string) : string :=
  Str.upper (os_environ_get env "FILE_LOG_LEVEL" "DEBUG").

Definition log_file_dir (env : gmap string string) : string :=
  os_environ_get env "LOG_FILE_DIR" ".".

Definition log_file_name (env : gmap string string) : string :=
  os_environ_get env "LOG_FILE_NAME" "app.log".

(** The path handed to [FileHandler] on line 57. *)
Definition log_file_path (env : gmap string string) : string :=
  os_path_join (log_file_dir env) (log_file_name env).

Definition getLogger (name : string) : M LoggerRef :=
  env <~ gets environ ;;
  let console_log_level := console_log_level env in
  let file_log_level := file_log_level env in
  let log_file_dir := log_file_dir env in
  let log_file_name := log_file_name env in
  (* Create logger *)
  logger <~ logging_getLogger name ;;
  Logger_setLevel logger DEBUG ;;;
  (* Create console handler and set its level and formatter *)
  let console_handler := StreamHandler_new in
  console_handler <~ Handler_setLevel console_handler console_log_level ;;
  let console_formatter := ColorFormatter LevelnameMessage in
  let console_handler := setFormatter console_handler console_formatter in
  (* Create file handler and set its level and formatter *)
  file_handler <~ FileHandler_new (os_path_join log_file_dir log_file_name) ;;
  file_handler <~ Handler_setLevel file_handler file_log_level ;;
  let file_formatter := PlainFormatter LevelnameMessage in
  let file_handler := setFormatter file_handler file_formatter in
  (* Add handlers to the logger *)
  has <~ Logger_hasHandlers logger ;;
  (if negb has then
     Logger_addHandler logger console_handler ;;;
     Logger_addHandler logger file_handler
   else ret tt) ;;;
  (* return: the local names go away; handlers that were not added are
     referred to by nothing else *)
  (if has then
     Handler_reclaim console_handler ;;;
     Handler_reclaim file_handler
   else ret tt) ;;;
  ret logger.

(** The logger object a name denotes, whether or not it is registered. *)
Definition logger_named (name : string) : LoggerRef :=
  if Str.is_empty name || String.eqb name "root" then RootLogger
  else Named name.

(** The world after line 47: the logger exists and has its place in the
    hierarchy. *)
Definition registered (name : string) (w : World) : World :=
  world_after (logging_getLogger name) w.

(** The world just before [getLogger] builds its handlers: the logger is
    registered and its level is DEBUG. *)
Definition prepared (name : string) (w : World) : World :=
  world_after (logging_getLogger name ;;; Logger_setLevel (logger_named name) DEBUG) w.

(** The file system after [open(filename, 'w')] succeeded. *)
Definition opened (filename : string) (w : World) : World :=
  set_files (λ fs, <[filename := ""]> fs)
            (λ ofs, (ofs ++ [mkOpenFile filename 0])%list) w.

(** The two handlers [getLogger] builds, given the resolved levels and the
    file object. *)
Definition console_handler (lvl : Z) : Handler :=
  {| stream := Stderr; hlevel := lvl;
     formatter := Some (ColorFormatter LevelnameMessage) |}.

Definition file_handler (lvl : Z) (fd : nat) : Handler :=
  {| stream := FileStream fd; hlevel := lvl;
     formatter := Some (PlainFormatter LevelnameMessage) |}.

(** What a logger is apart from its place in the hierarchy. *)
Definition fields (l : Logger) : Z * list Handler * bool * bool :=
  (level l, handlers l, propagate l, disabled l).

(** Two registries whose loggers agree on everything but their parents. *)
Definition same_fields (d d' : gmap string Entry) : Prop :=
  ∀ n, fields (entry_logger (d' !! n)) = fields (entry_logger (d !! n)).

(** The part of [registry_ok] that is about [Manager.loggerDict]. *)
Definition dict_ok (d : gmap string Entry) : Prop :=
  (∀ name l p, d !! name = Some (IsLogger l) →
     parent l = Some (Named p) →
     (String.length p < String.length name)%nat)
  ∧ (∀ name loggerMap c, d !! name = Some (PlaceHolder loggerMap) →
       c ∈ loggerMap →
       (String.length name < String.length c)%nat).

(** "The variable is absent or empty", the condition under which the
    specification expects a default. *)
Definition absent_or_empty (env : gmap string string) (key : string) : Prop :=
  env !! key = None ∨ env !! key = Some "".

(** What [logging] keeps true of its registry, from the start of the
    process on and through every call modelled here: the root has no parent,
    the parent of a logger has a shorter name than the logger, and so has
    every placeholder that holds the logger.  So no logger is its own
    ancestor, and the loops over [c.parent] end at the root. *)
Definition registry_ok (w : World) : Prop :=
  parent (root w) = None
  ∧ (∀ name l p, loggerDict w !! name = Some (IsLogger l) →
       parent l = Some (Named p) →
       (String.length p < String.length name)%nat)
  ∧ (∀ name loggerMap c, loggerDict w !! name = Some (PlaceHolder loggerMap) →
       c ∈ loggerMap →
       (String.length name < String.length c)%nat).

(** The first use of a name in a process that logs normally: the check of
    line 63 finds no handler for the name, the logger is not disabled,
    [logging.disable] is not in force, and the log file can be opened. *)
Definition first_use (w : World) (name : string) : Prop :=
  hasHandlers (prepared name w) (logger_named name) = false
  ∧ disabled (the_logger w (logger_named name)) = false
  ∧ manager_disable w < DEBUG
  ∧ log_file_path (environ w) ∉ unwritable w.

(** ** Sequences of logging calls *)

(** [logger.debug(msg)]. *)
Definition Logger_debug (r : LoggerRef) (msg : string) : World → World :=
  Logger_log r DEBUG msg.

(** The calls [logger.log(lvl, msg)] of a list, made in order. *)
Fixpoint log_all (r : LoggerRef) (calls : list (Z * string)) (w : World)
    : World :=
  match calls with
  | [] => w
  | (lvl, msg) :: rest => log_all r rest (Logger_log r lvl msg w)
  end.

(** What a handler with level [threshold] and formatting function [fmt]
    writes for such calls: one terminated line for each call whose level
    passes. *)
Fixpoint lines_of (fmt : LogRecord → string) (threshold : Z)
    (calls : list (Z * string)) : string :=
  match calls with
  | [] => ""
  | (lvl, msg) :: rest =>
      (if lvl >=? threshold then fmt (makeRecord lvl msg) ++ terminator
       else "")
      ++ lines_of fmt threshold rest
  end.

(** [n] NUL characters, which is how a gap in a file reads. *)
Fixpoint nuls (n : nat) : string :=
  match n with
  | O => ""
  | S k => String Str.NUL (nuls k)
  end.

(** What one handler does with one record inside [Logger.callHandlers]. *)
Definition handler_step (h : Handler) (record : LogRecord) (w : World)
    : World :=
  if levelno record >=? hlevel h then Handler_handle h record w else w.

(** The logger [r] is set up as [getLogger] sets a logger up, and logs
    normally: it has the console handler and the file handler and nothing
    else, its level is DEBUG, it is enabled, no handler is found above it,
    and [logging.disable] is not in force. *)
Definition configured_for (w : World) (r : LoggerRef) (cl fl : Z) (fd : nat)
    : Prop :=
  handlers (the_logger w r) = [console_handler cl; file_handler fl fd]
  ∧ level (the_logger w r) = DEBUG
  ∧ disabled (the_logger w r) = false
  ∧ (propagate (the_logger w r) = false
     ∨ hasHandlers_from (parent_loggers w r) = false)
  ∧ manager_disable w < DEBUG.

(** ** Sample worlds *)

Module Sample.

(** A fresh process with an empty environment and an empty directory. *)
Definition fresh : World := initial_world ∅ ∅ ∅.

(** After [log = getLogger("x")]. *)
Definition configured : World := world_after (getLogger "x") fresh.

(** After [log.info("hello")]. *)
Definition logged : World := Logger_info (Named "x") "hello" configured.

(** A process in which the root logger already has a handler, as after
    [logging.basicConfig()]. *)
Definition root_configured : World :=
  world_after (Logger_addHandler RootLogger StreamHandler_new) fresh.

(** Fresh processes started with [CONSOLE_LOG_LEVEL=ERROR] and with
    [FILE_LOG_LEVEL=CRITICAL]. *)
Definition console_error : World :=
  initial_world {["CONSOLE_LOG_LEVEL" := "ERROR"]} ∅ ∅.

Definition file_critical : World :=
  initial_world {["FILE_LOG_LEVEL" := "CRITICAL"]} ∅ ∅.


(** A process whose log directory does not exist. *)
Definition no_directory : World :=
  initial_world {["LOG_FILE_DIR" := "/nonexistent"]} ∅
                {["/nonexistent/app.log"]}.

End Sample.

(** * Properties *)

(** ** Strings *)

Section StringFacts.

Lemma append_empty_r (s : string) : s ++ "" = s.
Proof.
  induction s as [|c s IH]; [done|].
  change (String c (s ++ "") = String c s). by rewrite IH.
Qed.

Lemma drop_empty (n : nat) : Str.drop n "" = "".
Proof. by destruct n. Qed.

Lemma write_at_start (data : string) : write_at 0 data "" = data.
Proof. unfold write_at. by rewrite drop_empty, append_empty_r. Qed.

Lemma get_Some_lt (s : string) (j : nat) (c : ascii) :
  String.get j s = Some c → (j < String.length s)%nat.
Proof.
  revert j. induction s as [|a s IH]; intros j; simpl; [done|].
  destruct j as [|j]; [lia|]. intros H. apply IH in H. lia.
Qed.

Lemma length_substring_0 (s : string) (j : nat) :
  (j ≤ String.length s)%nat → String.length (String.substring 0 j s) = j.
Proof.
  revert j. induction s as [|a s IH]; intros j; simpl.
  - destruct j; simpl; [done | lia].
  - destruct j as [|j]; simpl; [done|]. intros H. rewrite IH; lia.
Qed.

(** Every name [_fixupParents] tries is a proper prefix of the logger's
    name: it is shorter, hence another key of the registry. *)
Lemma rfind_prefixes_shorter (name : string) (e : nat) (p : string) :
  p ∈ rfind_prefixes name e → (String.length p < String.length name)%nat.
Proof.
  induction e as [e IH] using lt_wf_ind. destruct e as [|j]; simpl.
  - by intros ?%elem_of_nil.
  - destruct (String.get j name) as [c|] eqn:Hget.
    + destruct (Ascii.eqb_spec c ".") as [->|Hc].
      * destruct j as [|k]; [by intros ?%elem_of_nil|].
        intros [->|Hin]%elem_of_cons.
        -- apply get_Some_lt in Hget.
           rewrite length_substring_0; lia.
        -- revert Hin. apply IH. lia.
      * assert (p ∈ rfind_prefixes name j →
                (String.length p < String.length name)%nat) as Hrec
          by (apply IH; lia).
        destruct c as [[] [] [] [] [] [] [] []]; try exact Hrec.
        by destruct Hc.
    + apply IH. lia.
Qed.

Lemma rfind_prefixes_ne (name : string) (e : nat) (p : string) :
  p ∈ rfind_prefixes name e → p ≠ name.
Proof. intros Hin ->. apply rfind_prefixes_shorter in Hin. lia. Qed.

End StringFacts.

(** ** The colour formatter *)

Section ColorFormatterFacts.

Import ColoredFormatter.

Lemma COLORS_lookup (lvl : Z) :
  COLORS !! lvl =
    if decide (lvl = DEBUG) then Some (code "[95m")
    else if decide (lvl = INFO) then Some (code "[97m")
    else if decide (lvl = WARNING) then Some (code "[93m")
    else if decide (lvl = ERROR) then Some (code "[91m")
    else if decide (lvl = CRITICAL) then Some (code "[91m")
    else None.
Proof.
  unfold COLORS.
  repeat (rewrite lookup_insert; case_decide; [by subst | ];
          case_decide; [congruence | ]).
  apply lookup_empty.
Qed.

Lemma plain_text_of_plain_record (fmt : Template) (record : LogRecord) :
  exc_text record = "" → stack_info record = "" →
  Formatter_format fmt record = formatMessage fmt record.
Proof. unfold Formatter_format. by intros -> ->. Qed.

(** C4.  For a record at one of the five defined levels the colour
    formatter returns the escape code of that level (DEBUG: ESC[95m, INFO:
    ESC[97m, WARNING: ESC[93m, ERROR and CRITICAL: ESC[91m), then the text
    of the plain formatter unchanged, then the reset code ESC[0m.  The
    plain text of a record without exception or stack text is
    "<levelname> - <message>"; for the record of a plain logging call at
    level [lvl] it is the level's name, " - " and the message. *)
Theorem ColoredFormatter_format_defined_levels
    (record : LogRecord) (lvl : Z) (name color : string) :
  (lvl, name, color) ∈
    [ (DEBUG, "DEBUG", String Str.ESC "[95m");
      (INFO, "INFO", String Str.ESC "[97m");
      (WARNING, "WARNING", String Str.ESC "[93m");
      (ERROR, "ERROR", String Str.ESC "[91m");
      (CRITICAL, "CRITICAL", String Str.ESC "[91m") ] →
  levelno record = lvl →
  ColoredFormatter.format LevelnameMessage record =
    color ++ Formatter_format LevelnameMessage record ++ String Str.ESC "[0m"
  ∧ (exc_text record = "" → stack_info record = "" →
     Formatter_format LevelnameMessage record =
       levelname record ++ " - " ++ message record)
  ∧ ∀ msg : string,
      ColoredFormatter.format LevelnameMessage (makeRecord lvl msg) =
        color ++ (name ++ " - " ++ msg) ++ String Str.ESC "[0m".
Proof.
  intros Hin Hlvl. split; [|split].
  - unfold format. rewrite Hlvl, COLORS_lookup.
    repeat (apply elem_of_cons in Hin as [[= -> -> ->]|Hin]; [done|]).
    by apply elem_of_nil in Hin.
  - apply plain_text_of_plain_record.
  - intros msg. unfold format. simpl levelno. rewrite COLORS_lookup.
    repeat (apply elem_of_cons in Hin as [[= -> -> ->]|Hin]; [done|]).
    by apply elem_of_nil in Hin.
Qed.

Lemma ColoredFormatter_format_defined_levels_witness :
  ColoredFormatter.format LevelnameMessage
      (mkRecord ERROR "ERROR" "disk full" "" "") =
    String Str.ESC "[91m" ++ "ERROR - disk full" ++ String Str.ESC "[0m".
Proof.
  pose proof (ColoredFormatter_format_defined_levels
                (mkRecord ERROR "ERROR" "disk full" "" "")
                ERROR "ERROR" (String Str.ESC "[91m")) as H.
  destruct H as (H1 & H2 & _).
  - do 3 apply list_elem_of_further. apply list_elem_of_here.
  - reflexivity.
  - rewrite H1, H2; reflexivity.
Defined.

(** C8.  For a record whose level number is not a key of [COLORS] the
    formatter is still defined (it is a total function) and uses the reset
    code as the prefix, followed by the plain text and the reset code. *)
Theorem ColoredFormatter_format_unmapped_level
    (fmt : Template) (record : LogRecord) :
  levelno record ∉ [DEBUG; INFO; WARNING; ERROR; CRITICAL] →
  ColoredFormatter.format fmt record =
    String Str.ESC "[0m" ++ Formatter_format fmt record
      ++ String Str.ESC "[0m".
Proof.
  intros Hnot. unfold format. rewrite COLORS_lookup.
  repeat (case_decide as Heq;
          [exfalso; apply Hnot; rewrite Heq; set_solver | clear Heq]).
  reflexivity.
Qed.

Lemma ColoredFormatter_format_unmapped_level_witness :
  ColoredFormatter.format LevelnameMessage (makeRecord 25 "half way") =
    String Str.ESC "[0m" ++ "Level 25 - half way" ++ String Str.ESC "[0m".
Proof.
  rewrite (ColoredFormatter_format_unmapped_level LevelnameMessage
             (makeRecord 25 "half way")).
  - reflexivity.
  - simpl. unfold DEBUG, INFO, WARNING, ERROR, CRITICAL.
    intros Hin. repeat (apply elem_of_cons in Hin as [Hin|Hin]; [lia|]).
    by apply elem_of_nil in Hin.
Defined.

End ColorFormatterFacts.

(** ** The steps of [getLogger] *)

Section Steps.

Implicit Types (w : World) (name : string) (r : LoggerRef).

Lemma logging_getLogger_returns name w :
  outcome (logging_getLogger name) w = inr (logger_named name).
Proof.
  unfold outcome, logging_getLogger, logger_named, Manager_getLogger.
  destruct (Str.is_empty name || String.eqb name "root"); [done|].
  by destruct (loggerDict w !! name) as [[]|].
Qed.

Lemma logging_getLogger_run name w :
  logging_getLogger name w = (registered name w, inr (logger_named name)).
Proof.
  rewrite <- (logging_getLogger_returns name w).
  unfold registered, world_after, outcome.
  by destruct (logging_getLogger name w).
Qed.

Lemma prepared_eq name w :
  prepared name w =
    update_logger (logger_named name) (set_level DEBUG) (registered name w).
Proof.
  unfold prepared, world_after at 1, bind.
  by rewrite logging_getLogger_run.
Qed.

(** Registering a logger touches the registry only. *)
Lemma registered_outside name w :
  environ (registered name w) = environ w
  ∧ root (registered name w) = root w
  ∧ manager_disable (registered name w) = manager_disable w
  ∧ files (registered name w) = files w
  ∧ unwritable (registered name w) = unwritable w
  ∧ open_files (registered name w) = open_files w
  ∧ closed (registered name w) = closed w
  ∧ stderr (registered name w) = stderr w.
Proof.
  unfold registered, world_after, logging_getLogger, Manager_getLogger.
  destruct (_ || _); [done|]. by destruct (loggerDict w !! name) as [[]|].
Qed.

Lemma update_logger_outside r (f : Logger → Logger) w :
  environ (update_logger r f w) = environ w
  ∧ manager_disable (update_logger r f w) = manager_disable w
  ∧ files (update_logger r f w) = files w
  ∧ unwritable (update_logger r f w) = unwritable w
  ∧ open_files (update_logger r f w) = open_files w
  ∧ closed (update_logger r f w) = closed w
  ∧ stderr (update_logger r f w) = stderr w.
Proof. by destruct r. Qed.

(** Everything outside the registry is untouched by the first two steps. *)
Lemma prepared_frame name w :
  environ (prepared name w) = environ w
  ∧ manager_disable (prepared name w) = manager_disable w
  ∧ files (prepared name w) = files w
  ∧ unwritable (prepared name w) = unwritable w
  ∧ open_files (prepared name w) = open_files w
  ∧ stderr (prepared name w) = stderr w.
Proof.
  rewrite prepared_eq.
  destruct (update_logger_outside (logger_named name) (set_level DEBUG)
              (registered name w)) as (-> & -> & -> & -> & -> & _ & ->).
  destruct (registered_outside name w) as (-> & _ & -> & -> & -> & -> & _ & ->).
  done.
Qed.

Lemma prepared_closed name w : closed (prepared name w) = closed w.
Proof.
  rewrite prepared_eq.
  destruct (update_logger_outside (logger_named name) (set_level DEBUG)
              (registered name w)) as (_ & _ & _ & _ & _ & -> & _).
  by destruct (registered_outside name w) as (_ & _ & _ & _ & _ & _ & -> & _).
Qed.

(** [getLogger] step by step: the exceptions it can raise, in the order
    the source reaches them, and the world each outcome leaves. *)
Lemma getLogger_run name w :
  getLogger name w =
    let r := logger_named name in
    let env := environ w in
    match _nameToLevel (console_log_level env) with
    | None => (prepared name w, inl (ValueError (console_log_level env)))
    | Some cl =>
        if decide (log_file_path env ∈ unwritable w)
        then (prepared name w, inl (OSError (log_file_path env)))
        else
          let w2 := opened (log_file_path env) (prepared name w) in
          match _nameToLevel (file_log_level env) with
          | None => (w2, inl (ValueError (file_log_level env)))
          | Some fl =>
              (if hasHandlers w2 r then close_fd (length (open_files w)) w2
               else update_logger r
                      (append_handler
                         (file_handler fl (length (open_files w))))
                      (update_logger r
                         (append_handler (console_handler cl)) w2),
               inr r)
          end
    end.
Proof.
  rewrite prepared_eq.
  unfold getLogger, bind at 1, gets at 1. unfold bind at 1.
  rewrite logging_getLogger_run.
  set (r := logger_named name). set (w0 := registered name w).
  destruct (registered_outside name w)
    as (Henv & _ & _ & _ & Hbad & Hofs & _). fold w0 in Henv, Hbad, Hofs.
  unfold bind, Logger_setLevel, modify, Handler_setLevel, _checkLevel,
    FileHandler_new, open_w, Logger_hasHandlers, Logger_addHandler, gets,
    ret, raise, bind; simpl.
  destruct (_nameToLevel (console_log_level (environ w))) as [cl|]; [|done].
  simpl.
  assert (unwritable (update_logger r (set_level DEBUG) w0) = unwritable w)
    as -> by (by destruct r).
  assert (open_files (update_logger r (set_level DEBUG) w0) = open_files w)
    as -> by (by destruct r).
  unfold log_file_path. case_decide; [done|]. simpl.
  destruct (_nameToLevel (file_log_level (environ w))) as [fl|]; [|done].
  simpl. unfold opened.
  by destruct (hasHandlers _ r).
Qed.

End Steps.
(** ** What the registry operations change *)

Section Registry.

Implicit Types (w : World) (name : string) (r : LoggerRef) (l : Logger)
  (d : gmap string Entry).

Lemma the_logger_update r r' (f : Logger → Logger) w :
  the_logger (update_logger r f w) r' =
    if decide (r = r') then f (the_logger w r) else the_logger w r'.
Proof.
  destruct r as [|n], r' as [|n']; simpl; try done.
  case_decide as Heq.
  - injection Heq as ->. by rewrite lookup_insert_eq.
  - rewrite lookup_insert_ne; [done | congruence].
Qed.

Lemma the_logger_opened p w r : the_logger (opened p w) r = the_logger w r.
Proof. by destruct r. Qed.

Lemma fields_eq l (a : Z) (b : list Handler) (c e : bool) :
  fields l = (a, b, c, e)
  ↔ level l = a ∧ handlers l = b ∧ propagate l = c ∧ disabled l = e.
Proof.
  unfold fields. split.
  - by intros [= -> -> -> ->].
  - by intros (-> & -> & -> & ->).
Qed.

Lemma fields_same l l' :
  fields l' = fields l
  ↔ level l' = level l ∧ handlers l' = handlers l
    ∧ propagate l' = propagate l ∧ disabled l' = disabled l.
Proof. apply fields_eq. Qed.

(** *** Registering a logger changes no logger's own fields *)

Lemma same_fields_refl d : same_fields d d.
Proof. done. Qed.

Lemma same_fields_trans d1 d2 d3 :
  same_fields d1 d2 → same_fields d2 d3 → same_fields d1 d3.
Proof. intros H12 H23 n. by rewrite H23, H12. Qed.

Lemma same_fields_insert d n (e : Entry) :
  fields (entry_logger (Some e)) = fields (entry_logger (d !! n)) →
  same_fields d (<[n := e]> d).
Proof.
  intros He k. destruct (decide (n = k)) as [->|Hne].
  - by rewrite lookup_insert_eq.
  - by rewrite lookup_insert_ne.
Qed.

Lemma _fixupChildren_step_fields name d c :
  same_fields d (_fixupChildren_step name d c).
Proof.
  unfold _fixupChildren_step.
  destruct (d !! c) as [[l|m]|] eqn:Hc; try done.
  destruct (parent l); [|done]. destruct (String.eqb _ _); [done|].
  apply same_fields_insert. by rewrite Hc.
Qed.

Lemma _fixupChildren_fields (ph : list string) name d :
  same_fields d (_fixupChildren ph name d).
Proof.
  unfold _fixupChildren. revert d.
  induction ph as [|c ph IH]; intros d; [done|]. simpl.
  eapply same_fields_trans; [apply _fixupChildren_step_fields | apply IH].
Qed.

Lemma _fixupParents_loop_fields name (tries : list string) d :
  same_fields d (_fixupParents_loop name tries d).1.
Proof.
  revert d. induction tries as [|s tries IH]; intros d; [done|]. simpl.
  destruct (d !! s) as [[l|m]|] eqn:Hs; [done| |];
    (eapply same_fields_trans; [|apply IH]);
    apply same_fields_insert; by rewrite Hs.
Qed.

Lemma _fixupParents_fields name d :
  same_fields d (_fixupParents name d).
Proof.
  unfold _fixupParents.
  pose proof (_fixupParents_loop_fields name
                (rfind_prefixes name (String.length name)) d) as Hloop.
  destruct (_fixupParents_loop _ _ d) as [d' rv]. simpl in Hloop.
  eapply same_fields_trans; [exact Hloop|].
  by apply same_fields_insert.
Qed.

Lemma registered_fields name w r :
  fields (the_logger (registered name w) r) = fields (the_logger w r).
Proof.
  destruct r as [|n]; simpl.
  { by destruct (registered_outside name w) as (_ & -> & _). }
  unfold registered, world_after, logging_getLogger, Manager_getLogger.
  destruct (_ || _); [done|].
  destruct (loggerDict w !! name) as [[l|ph]|] eqn:Hname; [done|..]; simpl.
  - apply (same_fields_trans _ (<[name := IsLogger Logger_new]> (loggerDict w))).
    + apply same_fields_insert. by rewrite Hname.
    + eapply same_fields_trans;
        [apply _fixupChildren_fields | apply _fixupParents_fields].
  - apply (same_fields_trans _ (<[name := IsLogger Logger_new]> (loggerDict w))).
    + apply same_fields_insert. by rewrite Hname.
    + apply _fixupParents_fields.
Qed.

Lemma fields_prepared name w r :
  fields (the_logger (prepared name w) r) =
    if decide (logger_named name = r)
    then fields (set_level DEBUG (the_logger w r))
    else fields (the_logger w r).
Proof.
  rewrite prepared_eq, the_logger_update.
  case_decide as Heq.
  - subst r. pose proof (registered_fields name w (logger_named name)) as H.
    unfold fields in *. simpl. congruence.
  - apply registered_fields.
Qed.

Lemma handlers_prepared name w r :
  handlers (the_logger (prepared name w) r) = handlers (the_logger w r).
Proof.
  pose proof (fields_prepared name w r) as H. revert H.
  case_decide; unfold fields; simpl; congruence.
Qed.

End Registry.
(** ** The registry stays well formed *)

Section WellFormed.

Implicit Types (w : World) (name : string) (r : LoggerRef) (l : Logger)
  (d : gmap string Entry).

Lemma registry_ok_dict w :
  registry_ok w ↔ parent (root w) = None ∧ dict_ok (loggerDict w).
Proof. done. Qed.

Lemma dict_ok_insert_logger d name l :
  dict_ok d →
  (∀ p, parent l = Some (Named p) →
     (String.length p < String.length name)%nat) →
  dict_ok (<[name := IsLogger l]> d).
Proof.
  intros [HP HH] Hl. split.
  - intros n l' p. destruct (decide (name = n)) as [->|Hne].
    + rewrite lookup_insert_eq. intros [= <-]. apply Hl.
    + rewrite lookup_insert_ne by done. apply HP.
  - intros n m c. destruct (decide (name = n)) as [->|Hne].
    + by rewrite lookup_insert_eq.
    + rewrite lookup_insert_ne by done. apply HH.
Qed.

Lemma dict_ok_insert_placeholder d s (m : list string) :
  dict_ok d →
  (∀ l, d !! s ≠ Some (IsLogger l)) →
  (∀ c, c ∈ m → (String.length s < String.length c)%nat) →
  dict_ok (<[s := PlaceHolder m]> d).
Proof.
  intros [HP HH] Hs Hm. split.
  - intros n l' p. destruct (decide (s = n)) as [->|Hne].
    + by rewrite lookup_insert_eq.
    + rewrite lookup_insert_ne by done. apply HP.
  - intros n m' c. destruct (decide (s = n)) as [->|Hne].
    + rewrite lookup_insert_eq. intros [= <-]. apply Hm.
    + rewrite lookup_insert_ne by done. apply HH.
Qed.

Lemma _fixupChildren_step_ok name d c :
  dict_ok d → (String.length name < String.length c)%nat →
  dict_ok (_fixupChildren_step name d c).
Proof.
  intros Hd Hlen. unfold _fixupChildren_step.
  destruct (d !! c) as [[l|m]|] eqn:Hc; try done.
  destruct (parent l); [|done]. destruct (String.eqb _ _); [done|].
  apply dict_ok_insert_logger; [done|]. simpl. by intros p [= <-].
Qed.

Lemma _fixupChildren_ok (ph : list string) name d :
  dict_ok d →
  (∀ c, c ∈ ph → (String.length name < String.length c)%nat) →
  dict_ok (_fixupChildren ph name d).
Proof.
  unfold _fixupChildren. revert d.
  induction ph as [|c ph IH]; intros d Hd Hph; [done|]. simpl.
  apply IH.
  - apply _fixupChildren_step_ok; [done|]. apply Hph. by left.
  - intros c' Hc'. apply Hph. by right.
Qed.

Lemma PlaceHolder_append_elem (m : list string) name c :
  c ∈ PlaceHolder_append m name → c ∈ m ∨ c = name.
Proof.
  unfold PlaceHolder_append. case_bool_decide; [by left|].
  intros [?|?%list_elem_of_singleton]%elem_of_app; auto.
Qed.

Lemma _fixupParents_loop_ok name (tries : list string) d :
  dict_ok d →
  (∀ s, s ∈ tries → (String.length s < String.length name)%nat) →
  dict_ok (_fixupParents_loop name tries d).1
  ∧ (ref_depth (_fixupParents_loop name tries d).2 ≤ String.length name)%nat.
Proof.
  revert d. induction tries as [|s tries IH]; intros d Hd Htries; simpl.
  { split; [done | lia]. }
  assert (String.length s < String.length name)%nat as Hs
    by (apply Htries; by left).
  assert (∀ s', s' ∈ tries → (String.length s' < String.length name)%nat)
    as Hrest by (intros s' Hs'; apply Htries; by right).
  destruct (d !! s) as [[l|m]|] eqn:Hds.
  - simpl. split; [done | lia].
  - apply IH; [|done].
    apply dict_ok_insert_placeholder; [done | congruence |].
    intros c [Hc| ->]%PlaceHolder_append_elem; [|done].
    destruct Hd as [_ HH]. by apply (HH s m c).
  - apply IH; [|done].
    apply dict_ok_insert_placeholder; [done | congruence |].
    by intros c ->%list_elem_of_singleton.
Qed.

Lemma _fixupParents_ok name d :
  dict_ok d → dict_ok (_fixupParents name d).
Proof.
  intros Hd. unfold _fixupParents.
  destruct (_fixupParents_loop_ok name
              (rfind_prefixes name (String.length name)) d Hd)
    as [Hok Hrv]; [intros s; apply rfind_prefixes_shorter|].
  destruct (_fixupParents_loop _ _ d) as [d' rv]. simpl in Hok, Hrv.
  apply dict_ok_insert_logger; [done|]. simpl. intros p [= ->].
  simpl in Hrv. lia.
Qed.

Lemma registered_ok name w : registry_ok w → registry_ok (registered name w).
Proof.
  rewrite !registry_ok_dict. intros [Hroot Hd].
  destruct (registered_outside name w) as (_ & -> & _). split; [done|].
  unfold registered, world_after, logging_getLogger, Manager_getLogger.
  destruct (_ || _); [done|].
  destruct (loggerDict w !! name) as [[l|ph]|] eqn:Hname; [done|..]; simpl.
  - apply _fixupParents_ok, _fixupChildren_ok.
    + by apply dict_ok_insert_logger.
    + destruct Hd as [_ HH]. intros c. by apply (HH name ph c).
  - apply _fixupParents_ok. by apply dict_ok_insert_logger.
Qed.

Lemma update_logger_ok r (f : Logger → Logger) w :
  (∀ l, parent (f l) = parent l) →
  registry_ok w → registry_ok (update_logger r f w).
Proof.
  intros Hf. rewrite !registry_ok_dict. intros [Hroot Hd].
  destruct r as [|n]; simpl.
  - split; [by rewrite Hf | done].
  - split; [done|]. apply dict_ok_insert_logger; [done|].
    intros p. rewrite Hf. destruct (loggerDict w !! n) as [[l|m]|] eqn:Hn;
      try done. simpl. destruct Hd as [HP _]. by apply (HP n l p).
Qed.

(** Worlds with the same registry. *)
Lemma registry_ok_same w w' :
  root w' = root w → loggerDict w' = loggerDict w →
  registry_ok w → registry_ok w'.
Proof. unfold registry_ok. by intros -> ->. Qed.

Lemma registry_ok_initial (env fs : gmap string string) (bad : gset string) :
  registry_ok (initial_world env fs bad).
Proof.
  split; [done|split]; intros n ? ? H; simpl in H; by rewrite lookup_empty in H.
Qed.

Lemma prepared_ok name w : registry_ok w → registry_ok (prepared name w).
Proof.
  intros Hok. rewrite prepared_eq.
  apply update_logger_ok; [done | by apply registered_ok].
Qed.

End WellFormed.
(** ** Chains of parents *)

Section Chains.

Implicit Types (w : World) (name : string) (r : LoggerRef) (l : Logger).

Lemma lineage_unfold w r : lineage w r = the_logger w r :: parent_loggers w r.
Proof. done. Qed.

(** The chain is read off the registry and nothing else. *)
Lemma lineage_from_same w w' (fuel : nat) r :
  root w' = root w → loggerDict w' = loggerDict w →
  lineage_from w' fuel r = lineage_from w fuel r.
Proof.
  intros Hr Hd. revert r. induction fuel as [|fuel IH]; intros r; [done|].
  cbn [lineage_from]. assert (the_logger w' r = the_logger w r) as ->
    by (destruct r; simpl; congruence).
  destruct (parent (the_logger w r)); [by rewrite IH | done].
Qed.

Lemma registry_view w w' r :
  root w' = root w → loggerDict w' = loggerDict w →
  the_logger w' r = the_logger w r
  ∧ parent_loggers w' r = parent_loggers w r.
Proof.
  intros Hr Hd.
  assert (the_logger w' r = the_logger w r) as Hl
    by (destruct r; simpl; congruence).
  split; [done|]. unfold parent_loggers. rewrite Hl.
  destruct (parent (the_logger w r)); [by apply lineage_from_same | done].
Qed.

Lemma hasHandlers_same w w' r :
  root w' = root w → loggerDict w' = loggerDict w →
  hasHandlers w' r = hasHandlers w r.
Proof.
  intros Hr Hd. unfold hasHandlers, lineage. by rewrite (lineage_from_same w w').
Qed.

(** In a well-formed registry the parent of a logger is nearer the top. *)
Lemma parent_shorter w r p :
  registry_ok w → parent (the_logger w r) = Some p →
  (ref_depth p < ref_depth r)%nat.
Proof.
  intros (Hroot & HP & _) Hp. destruct r as [|n]; simpl in Hp.
  { by rewrite Hroot in Hp. }
  destruct p as [|q]; simpl; [lia|].
  destruct (loggerDict w !! n) as [[l|m]|] eqn:Hn; try done.
  pose proof (HP n l q Hn Hp). lia.
Qed.

(** The fuel of [lineage] is enough: more fuel visits no more loggers. *)
Lemma lineage_from_enough w (fuel extra : nat) r :
  registry_ok w → (ref_depth r < fuel)%nat →
  lineage_from w (fuel + extra) r = lineage_from w fuel r.
Proof.
  intros Hok. revert r. induction fuel as [|fuel IH]; intros r Hlen; [lia|].
  cbn [lineage_from Nat.add]. destruct (parent (the_logger w r)) as [p|] eqn:Hp; [|done].
  f_equal. apply IH. pose proof (parent_shorter w r p Hok Hp). lia.
Qed.

(** Changing the logger registered under a name leaves the chains from
    loggers nearer the top as they were. *)
Lemma lineage_from_update_shorter w (n : string) (f : Logger → Logger)
    (fuel : nat) r :
  registry_ok w →
  (ref_depth r < ref_depth (Named n))%nat →
  lineage_from (update_logger (Named n) f w) fuel r = lineage_from w fuel r.
Proof.
  intros Hok. revert r. induction fuel as [|fuel IH]; intros r Hr; [done|].
  cbn [lineage_from].
  assert (the_logger (update_logger (Named n) f w) r = the_logger w r) as ->.
  { rewrite the_logger_update. case_decide as Heq; [|done]. subst r. lia. }
  destruct (parent (the_logger w r)) as [p|] eqn:Hp; [|done].
  f_equal. apply IH. pose proof (parent_shorter w r p Hok Hp). lia.
Qed.

(** Changing a logger, but not its parent, changes the head of its chain
    and nothing above. *)
Lemma lineage_update_self w r (f : Logger → Logger) :
  registry_ok w → (∀ l, parent (f l) = parent l) →
  parent_loggers (update_logger r f w) r = parent_loggers w r.
Proof.
  intros Hok Hf. unfold parent_loggers.
  rewrite the_logger_update, decide_True, Hf by done.
  destruct (parent (the_logger w r)) as [p|] eqn:Hp; [|done].
  destruct r as [|n].
  - done.
  - apply lineage_from_update_shorter; [done|].
    apply (parent_shorter w (Named n) p Hok Hp).
Qed.

Lemma hasHandlers_opened p w r : hasHandlers (opened p w) r = hasHandlers w r.
Proof. by apply hasHandlers_same. Qed.

Lemma parent_loggers_opened p w r :
  parent_loggers (opened p w) r = parent_loggers w r.
Proof. by apply registry_view. Qed.

End Chains.
(** ** Reading the environment *)

Section Settings.

Implicit Types (env : gmap string string).

(** C3, as stated, fails: a variable that is set to the empty string is
    not replaced by its default. *)
Lemma empty_variable_is_not_defaulted :
  ¬ (∀ env,
       (absent_or_empty env "CONSOLE_LOG_LEVEL" →
        _nameToLevel (console_log_level env) = Some INFO)
       ∧ (absent_or_empty env "FILE_LOG_LEVEL" →
          _nameToLevel (file_log_level env) = Some DEBUG)
       ∧ (absent_or_empty env "LOG_FILE_DIR" → log_file_dir env = ".")
       ∧ (absent_or_empty env "LOG_FILE_NAME" →
          log_file_name env = "app.log")).
Proof.
  intros H.
  destruct (H {["CONSOLE_LOG_LEVEL" := ""]}) as (Hconsole & _).
  assert (_nameToLevel (console_log_level {["CONSOLE_LOG_LEVEL" := ""]})
          = Some INFO) as Hbad by (apply Hconsole; by right).
  vm_compute in Hbad. discriminate.
Qed.

(** C3, amended.  Each of the four settings is read from its own variable
    and from nothing else: the default when the variable is absent (INFO,
    DEBUG, "." and "app.log"), the value itself when it is set, the empty
    string included.  The two level strings are upper-cased, and it is the
    upper-cased string that is resolved to a level. *)
Theorem settings_default_when_absent env :
  (env !! "CONSOLE_LOG_LEVEL" = None →
     console_log_level env = "INFO"
     ∧ _nameToLevel (console_log_level env) = Some INFO)
  ∧ (env !! "FILE_LOG_LEVEL" = None →
     file_log_level env = "DEBUG"
     ∧ _nameToLevel (file_log_level env) = Some DEBUG)
  ∧ (env !! "LOG_FILE_DIR" = None → log_file_dir env = ".")
  ∧ (env !! "LOG_FILE_NAME" = None → log_file_name env = "app.log")
  ∧ (∀ v, env !! "CONSOLE_LOG_LEVEL" = Some v →
       console_log_level env = Str.upper v)
  ∧ (∀ v, env !! "FILE_LOG_LEVEL" = Some v →
       file_log_level env = Str.upper v)
  ∧ (∀ v, env !! "LOG_FILE_DIR" = Some v → log_file_dir env = v)
  ∧ (∀ v, env !! "LOG_FILE_NAME" = Some v → log_file_name env = v).
Proof.
  unfold console_log_level, file_log_level, log_file_dir, log_file_name,
    os_environ_get.
  repeat split; intros; by simplify_option_eq.
Qed.

Lemma settings_default_when_absent_witness :
  let env : gmap string string :=
    {[ "FILE_LOG_LEVEL" := "error"; "LOG_FILE_DIR" := "" ]} in
  console_log_level env = "INFO" ∧ file_log_level env = "ERROR"
  ∧ log_file_dir env = "" ∧ log_file_name env = "app.log".
Proof.
  intros env.
  destruct (settings_default_when_absent env)
    as (Hc & _ & _ & Hn & _ & Hf & Hd & _).
  split; [apply Hc; reflexivity|].
  split; [apply (Hf "error"); reflexivity|].
  split; [apply (Hd ""); reflexivity | apply Hn; reflexivity].
Defined.

End Settings.

(** ** Failures of [getLogger] *)

Section Failures.

Implicit Types (w : World) (name : string) (r : LoggerRef).

(** C7.  A level string that [logging] does not know makes [getLogger]
    itself raise.  An unknown console level raises the ValueError of line
    52.  An unknown file level raises too: the ValueError of line 58, or,
    when something fails earlier, that earlier exception. *)
Theorem getLogger_unknown_level w name :
  (_nameToLevel (console_log_level (environ w)) = None →
     outcome (getLogger name) w =
       inl (ValueError (console_log_level (environ w))))
  ∧ (_nameToLevel (file_log_level (environ w)) = None →
     ∃ e, outcome (getLogger name) w = inl e
          ∧ (is_Some (_nameToLevel (console_log_level (environ w))) →
             log_file_path (environ w) ∉ unwritable w →
             e = ValueError (file_log_level (environ w)))).
Proof.
  unfold outcome. rewrite getLogger_run. simpl. split.
  - by intros ->.
  - intros ->.
    destruct (_nameToLevel (console_log_level (environ w))) as [cl|].
    + case_decide; simpl; eexists; (split; [done|]); naive_solver.
    + simpl. eexists. split; [done|]. by intros [? [=]].
Qed.

Lemma getLogger_unknown_level_witness :
  outcome (getLogger "x")
          (initial_world {["CONSOLE_LOG_LEVEL" := "notalevel"]} ∅ ∅)
  = inl (ValueError "NOTALEVEL").
Proof.
  rewrite (proj1 (getLogger_unknown_level
             (initial_world {["CONSOLE_LOG_LEVEL" := "notalevel"]} ∅ ∅) "x"))
    by reflexivity.
  reflexivity.
Defined.

(** C6.  When the log file cannot be opened at the joined path,
    [getLogger] raises (the OSError of line 57, unless the console level
    was already rejected on line 52) and every logger keeps exactly the
    handlers it had: nothing is attached, there is no console-only
    logger. *)
Theorem getLogger_unwritable_file w name :
  log_file_path (environ w) ∈ unwritable w →
  (∃ e, outcome (getLogger name) w = inl e
        ∧ (is_Some (_nameToLevel (console_log_level (environ w))) →
           e = OSError (log_file_path (environ w))))
  ∧ ∀ r, handlers (the_logger (world_after (getLogger name) w) r) =
         handlers (the_logger w r).
Proof.
  intros Hbad. unfold outcome, world_after. rewrite getLogger_run. simpl.
  destruct (_nameToLevel (console_log_level (environ w))) as [cl|].
  - rewrite decide_True by done. simpl. split.
    + by eexists.
    + intros r. apply handlers_prepared.
  - simpl. split.
    + eexists. split; [done|]. by intros [? [=]].
    + intros r. apply handlers_prepared.
Qed.

Lemma getLogger_unwritable_file_witness :
  (∃ e, outcome (getLogger "x") Sample.no_directory = inl e
        ∧ (is_Some (_nameToLevel
                      (console_log_level (environ Sample.no_directory))) →
           e = OSError (log_file_path (environ Sample.no_directory))))
  ∧ ∀ r, handlers (the_logger
                     (world_after (getLogger "x") Sample.no_directory) r) =
         handlers (the_logger Sample.no_directory r).
Proof.
  apply (getLogger_unwritable_file Sample.no_directory "x").
  vm_compute. reflexivity.
Defined.

End Failures.

(** ** What a successful [getLogger] leaves behind *)

Section Attachment.

Implicit Types (w : World) (name : string) (r : LoggerRef).

Lemma hasHandlers_false_own w r :
  hasHandlers w r = false → handlers (the_logger w r) = [].
Proof.
  unfold hasHandlers. rewrite lineage_unfold. simpl.
  by destruct (handlers (the_logger w r)).
Qed.

Lemma hasHandlers_own w r :
  handlers (the_logger w r) ≠ [] → hasHandlers w r = true.
Proof.
  unfold hasHandlers. rewrite lineage_unfold. simpl.
  by destruct (handlers (the_logger w r)).
Qed.

(** When the check finds nothing on a logger, it finds nothing above it, or
    the logger does not propagate. *)
Lemma hasHandlers_false_above w r :
  hasHandlers w r = false →
  propagate (the_logger w r) = false
  ∨ hasHandlers_from (parent_loggers w r) = false.
Proof.
  unfold hasHandlers. rewrite lineage_unfold. simpl.
  destruct (handlers (the_logger w r)); [|done].
  destruct (propagate (the_logger w r)); simpl; auto.
Qed.


(** The shapes the world can have after [getLogger]: stopped before the
    file was opened; stopped on the file level; returned without attaching,
    the new file object closed again; returned with both handlers attached. *)
Lemma getLogger_world_shapes w name :
  let r := logger_named name in
  let p := log_file_path (environ w) in
  let w' := world_after (getLogger name) w in
  ((_nameToLevel (console_log_level (environ w)) = None ∨ p ∈ unwritable w)
   ∧ w' = prepared name w)
  ∨ (is_Some (_nameToLevel (console_log_level (environ w)))
     ∧ (p ∉ unwritable w)
     ∧ (w' = opened p (prepared name w)
        ∨ w' = close_fd (length (open_files w)) (opened p (prepared name w))
        ∨ (∃ hc hf, w' = update_logger r (append_handler hf)
                           (update_logger r (append_handler hc)
                              (opened p (prepared name w)))))).
Proof.
  intros r p w'. subst w'. unfold world_after. rewrite getLogger_run. simpl.
  fold r p.
  destruct (_nameToLevel (console_log_level (environ w))) as [cl|];
    cbn [fst]; [|left; by split; [left|]].
  case_decide; cbn [fst]; [left; by split; [right|]|].
  right. split; [by eexists|]. split; [done|].
  destruct (_nameToLevel (file_log_level (environ w))) as [fl|];
    cbn [fst]; [|by left].
  destruct (hasHandlers _ r); [right; by left|]. right. right.
  by do 2 eexists.
Qed.

(** What no call changes. *)
Lemma getLogger_outside w name :
  let w' := world_after (getLogger name) w in
  environ w' = environ w
  ∧ manager_disable w' = manager_disable w
  ∧ unwritable w' = unwritable w
  ∧ stderr w' = stderr w.
Proof.
  intros w'. subst w'.
  destruct (prepared_frame name w) as (He & Hm & _ & Hu & _ & Hs).
  destruct (getLogger_world_shapes w name)
    as [[_ ->]|(_ & _ & [->|[->|(hc & hf & ->)]])]; try done.
  destruct (update_logger_outside (logger_named name) (append_handler hf)
              (update_logger (logger_named name) (append_handler hc)
                 (opened (log_file_path (environ w)) (prepared name w))))
    as (-> & -> & _ & -> & _ & _ & ->).
  by destruct (update_logger_outside (logger_named name) (append_handler hc)
                 (opened (log_file_path (environ w)) (prepared name w)))
    as (-> & -> & _ & -> & _ & _ & ->).
Qed.

(** The call keeps the registry well formed. *)
Lemma getLogger_ok w name :
  registry_ok w → registry_ok (world_after (getLogger name) w).
Proof.
  intros Hok. pose proof (prepared_ok name w Hok) as Hprep.
  destruct (getLogger_world_shapes w name)
    as [[_ ->]|(_ & _ & [->|[->|(hc & hf & ->)]])]; try done.
  by do 2 (apply update_logger_ok; [done|]).
Qed.

(** When the check finds a handler, the call attaches nothing, whether it
    returns or raises. *)
Lemma getLogger_attaches_nothing w name r :
  hasHandlers (prepared name w) (logger_named name) = true →
  handlers (the_logger (world_after (getLogger name) w) r) =
    handlers (the_logger w r).
Proof.
  intros Hhas. unfold world_after. rewrite getLogger_run. simpl.
  destruct (_nameToLevel (console_log_level (environ w))) as [cl|]; simpl;
    [|apply handlers_prepared].
  case_decide; simpl; [apply handlers_prepared|].
  destruct (_nameToLevel (file_log_level (environ w))) as [fl|]; simpl.
  - rewrite hasHandlers_opened, Hhas.
    change (the_logger (close_fd ?fd ?v) r) with (the_logger v r).
    by rewrite the_logger_opened, handlers_prepared.
  - by rewrite the_logger_opened, handlers_prepared.
Qed.

(** A call that finds handlers: it returns, and all it did was to set the
    level and to open the file once more; the file object it opened is
    closed again. *)
Lemma getLogger_configured w name (cl fl : Z) :
  hasHandlers (prepared name w) (logger_named name) = true →
  _nameToLevel (console_log_level (environ w)) = Some cl →
  _nameToLevel (file_log_level (environ w)) = Some fl →
  log_file_path (environ w) ∉ unwritable w →
  getLogger name w =
    (close_fd (length (open_files w))
       (opened (log_file_path (environ w)) (prepared name w)),
     inr (logger_named name)).
Proof.
  intros Hhas Hcl Hfl Hok. rewrite getLogger_run. simpl.
  rewrite Hcl, Hfl, decide_False by done.
  by rewrite hasHandlers_opened, Hhas.
Qed.

(** A call that finds no handler: it returns, the logger has the console
    handler and the file handler, in this order, and the file is empty. *)
Lemma getLogger_first_use w name (cl fl : Z) :
  let r := logger_named name in
  let p := log_file_path (environ w) in
  let w1 := world_after (getLogger name) w in
  hasHandlers (prepared name w) r = false →
  _nameToLevel (console_log_level (environ w)) = Some cl →
  _nameToLevel (file_log_level (environ w)) = Some fl →
  p ∉ unwritable w →
  outcome (getLogger name) w = inr r
  ∧ fields (the_logger w1 r) =
      (DEBUG,
       [console_handler cl; file_handler fl (length (open_files w))],
       propagate (the_logger w r), disabled (the_logger w r))
  ∧ (registry_ok w →
     parent_loggers w1 r = parent_loggers (prepared name w) r)
  ∧ files w1 = <[p := ""]> (files w)
  ∧ open_files w1 = (open_files w ++ [mkOpenFile p 0])%list
  ∧ closed w1 = closed w.
Proof.
  intros r p w1 Hhas Hcl Hfl Hok. subst w1. unfold outcome, world_after.
  rewrite getLogger_run. simpl.
  rewrite Hcl, Hfl, decide_False by done.
  fold r p. rewrite hasHandlers_opened. rewrite Hhas. simpl.
  destruct (prepared_frame name w) as (He & Hm & Hf & Hu & Ho & Hs).
  split; [done|]. split; [|split].
  - rewrite !the_logger_update, !decide_True by done.
    rewrite the_logger_opened.
    pose proof (fields_prepared name w r) as Hfields.
    fold r in Hfields. rewrite decide_True in Hfields by done.
    pose proof (hasHandlers_false_own _ _ Hhas) as Hnil.
    apply fields_eq in Hfields as (Hl & Hh & Hp & Hd). simpl in Hl, Hh, Hp, Hd.
    apply fields_eq. simpl. by rewrite Hnil.
  - intros Hreg. pose proof (prepared_ok name w Hreg) as Hprep.
    assert (registry_ok (opened p (prepared name w))) as Hopened
      by (by apply (registry_ok_same (prepared name w))).
    rewrite lineage_update_self;
      [|by apply update_logger_ok|done].
    rewrite lineage_update_self by done.
    apply parent_loggers_opened.
  - destruct r; simpl; by rewrite ?Hf, ?Ho, ?prepared_closed.
Qed.



End Attachment.
(** ** Repeated calls and inherited handlers *)

Section Idempotence.

Implicit Types (w : World) (name : string) (r : LoggerRef).

Lemma getLogger_returns w name (cl fl : Z) :
  _nameToLevel (console_log_level (environ w)) = Some cl →
  _nameToLevel (file_log_level (environ w)) = Some fl →
  log_file_path (environ w) ∉ unwritable w →
  outcome (getLogger name) w = inr (logger_named name).
Proof.
  intros Hcl Hfl Hok. unfold outcome. rewrite getLogger_run. simpl.
  by rewrite Hcl, Hfl, decide_False.
Qed.

Lemma registry_ok_configured : registry_ok Sample.configured.
Proof. apply getLogger_ok, registry_ok_initial. Qed.





(** The same with the root logger as the ancestor. *)
Example getLogger_under_configured_root :
  outcome (getLogger "x") Sample.root_configured = inr (Named "x")
  ∧ handlers (the_logger (world_after (getLogger "x") Sample.root_configured)
                         (Named "x")) = [].
Proof. vm_compute. done. Qed.




(** A call for a logger that already has handlers returns, keeps the
    handlers as they are, and opens the log file once more in write mode:
    the file is empty afterwards. *)
Lemma getLogger_again_reopens w name (cl fl : Z) :
  let r := logger_named name in
  let p := log_file_path (environ w) in
  let w1 := world_after (getLogger name) w in
  handlers (the_logger w r) ≠ [] →
  _nameToLevel (console_log_level (environ w)) = Some cl →
  _nameToLevel (file_log_level (environ w)) = Some fl →
  p ∉ unwritable w →
  outcome (getLogger name) w = inr r
  ∧ handlers (the_logger w1 r) = handlers (the_logger w r)
  ∧ files w1 !! p = Some "".
Proof.
  intros r p w1 Hown Hcl Hfl Hok. subst w1.
  assert (hasHandlers (prepared name w) r = true) as Hhas
    by (apply hasHandlers_own; by rewrite handlers_prepared).
  split; [by apply (getLogger_returns w name cl fl)|].
  split; [by apply getLogger_attaches_nothing|].
  unfold world_after.
  rewrite (getLogger_configured w name cl fl) by done.
  simpl. apply lookup_insert_eq.
Qed.

(** C1, at a concrete run.  After [log = getLogger("x")] and
    [log.info("hello")] the log file holds the line; the logger has its
    two handlers.  The second [getLogger("x")] returns the same logger with
    the same two handlers, but it has opened the file again in write mode:
    the line written before the call is gone. *)
Theorem getLogger_again_truncates :
  let w3 := world_after (getLogger "x") Sample.logged in
  files Sample.logged !! "./app.log" = Some ("INFO - hello" ++ terminator)
  ∧ length (handlers (the_logger Sample.logged (Named "x"))) = 2%nat
  ∧ outcome (getLogger "x") Sample.logged = inr (Named "x")
  ∧ handlers (the_logger w3 (Named "x")) =
      handlers (the_logger Sample.logged (Named "x"))
  ∧ files w3 !! "./app.log" = Some "".
Proof. vm_compute. done. Qed.

End Idempotence.
(** ** Logging call after logging call *)

Section Calls.

Implicit Types (w : World) (name : string) (r : LoggerRef).

(** Loggers without handlers contribute nothing to [callHandlers]. *)
Lemma callHandlers_from_none (cs : list Logger) record (found : nat) w :
  hasHandlers_from cs = false →
  callHandlers_from cs record found w = (found, w).
Proof.
  induction cs as [|c cs IH]; simpl; [done|].
  destruct (handlers c); [|done]. simpl.
  destruct (propagate c); simpl; [apply IH | done].
Qed.

(** The first write through a file object that was just opened. *)
Lemma write_fd_fresh (fd : nat) (p data : string) w :
  open_files w !! fd = Some (mkOpenFile p 0) →
  files w !! p = Some "" →
  files (write_fd fd data w) !! p = Some data
  ∧ stderr (write_fd fd data w) = stderr w.
Proof.
  intros Hfd Hp. unfold write_fd. rewrite Hfd. cbn -[write_at].
  by rewrite lookup_insert_eq, Hp, write_at_start.
Qed.

Lemma append_assoc (a b c : string) : (a ++ b) ++ c = a ++ b ++ c.
Proof.
  induction a as [|x a IH]; [done|].
  change (String x ((a ++ b) ++ c) = String x (a ++ b ++ c)). by rewrite IH.
Qed.

Lemma length_append (a b : string) :
  String.length (a ++ b) = (String.length a + String.length b)%nat.
Proof.
  induction a as [|x a IH]; [done|].
  change (S (String.length (a ++ b))
          = S (String.length a + String.length b)). by rewrite IH.
Qed.

(** Writing at the end of a file appends. *)
Lemma write_at_end (content data : string) :
  write_at (String.length content) data content = content ++ data.
Proof.
  induction content as [|x c IH]; [apply write_at_start|].
  change (String x (write_at (String.length c) data c)
          = String x (c ++ data)). by rewrite IH.
Qed.

(** Writing past the end of an empty file leaves a gap. *)
Lemma write_at_gap (n : nat) (data : string) :
  write_at n data "" = nuls n ++ data.
Proof.
  induction n as [|n IH]; [apply write_at_start|].
  change (String Str.NUL (write_at n data "")
          = String Str.NUL (nuls n ++ data)). by rewrite IH.
Qed.

(** Writing to a stream changes neither the registry nor the environment. *)
Lemma stream_write_outside (s : Stream) (data : string) w :
  root (stream_write s data w) = root w
  ∧ loggerDict (stream_write s data w) = loggerDict w
  ∧ manager_disable (stream_write s data w) = manager_disable w
  ∧ environ (stream_write s data w) = environ w
  ∧ unwritable (stream_write s data w) = unwritable w.
Proof.
  destruct s as [|fd]; simpl; [done|].
  unfold write_fd. by destruct (open_files w !! fd).
Qed.

Lemma handler_step_outside (h : Handler) record w :
  root (handler_step h record w) = root w
  ∧ loggerDict (handler_step h record w) = loggerDict w
  ∧ manager_disable (handler_step h record w) = manager_disable w
  ∧ environ (handler_step h record w) = environ w
  ∧ unwritable (handler_step h record w) = unwritable w.
Proof.
  unfold handler_step, Handler_handle.
  destruct (_ >=? _); [apply stream_write_outside | done].
Qed.

(** A logging call on a logger set up by [getLogger] is the console
    handler's step followed by the file handler's step. *)
Lemma Logger_log_configured w r (cl fl : Z) (fd : nat) (lvl : Z)
    (msg : string) :
  configured_for w r cl fl fd → DEBUG ≤ lvl →
  Logger_log r lvl msg w =
    handler_step (file_handler fl fd) (makeRecord lvl msg)
      (handler_step (console_handler cl) (makeRecord lvl msg) w).
Proof.
  intros (Hh & Hl & Hd & Hup & Hm) Hlvl.
  unfold Logger_log, isEnabledFor, getEffectiveLevel.
  rewrite lineage_unfold. cbn [getEffectiveLevel_from]. rewrite Hd, Hl.
  replace (manager_disable w >=? lvl) with false
    by (symmetry; rewrite Z.geb_leb; apply Z.leb_gt; lia).
  change (DEBUG =? 0) with false. cbn iota.
  replace (lvl >=? DEBUG) with true
    by (symmetry; rewrite Z.geb_leb; apply Z.leb_le; lia).
  unfold Logger_handle. rewrite Hd. cbn [negb].
  unfold callHandlers. rewrite lineage_unfold.
  cbn [callHandlers_from]. rewrite Hh.
  cbn [call_each]. fold (handler_step (console_handler cl)
                           (makeRecord lvl msg) w).
  set (wc := handler_step (console_handler cl) (makeRecord lvl msg) w).
  fold (handler_step (file_handler fl fd) (makeRecord lvl msg) wc).
  set (wf := handler_step (file_handler fl fd) (makeRecord lvl msg) wc).
  destruct Hup as [-> | Hnone]; [done|].
  destruct (propagate (the_logger w r)); [|done]. cbn [negb].
  by rewrite callHandlers_from_none.
Qed.

Lemma configured_for_registry w w' r (cl fl : Z) (fd : nat) :
  root w' = root w → loggerDict w' = loggerDict w →
  manager_disable w' = manager_disable w →
  configured_for w r cl fl fd → configured_for w' r cl fl fd.
Proof.
  intros Hr Hd Hm. unfold configured_for.
  destruct (registry_view w w' r Hr Hd) as [-> ->]. by rewrite Hm.
Qed.

(** The console handler's step: it appends its line to the console, if the
    level passes, and leaves the files alone. *)
Lemma console_step_effect (cl lvl : Z) (msg : string) w :
  let wc := handler_step (console_handler cl) (makeRecord lvl msg) w in
  stderr wc = stderr w ++ lines_of (ColoredFormatter.format LevelnameMessage)
                            cl [(lvl, msg)]
  ∧ files wc = files w ∧ open_files wc = open_files w.
Proof.
  unfold handler_step, Handler_handle. cbn [levelno makeRecord hlevel
    console_handler lines_of]. rewrite !append_empty_r.
  destruct (lvl >=? cl); [done|]. by rewrite append_empty_r.
Qed.

(** The file handler's step when its file object stands at the end of the
    file: it appends its line, if the level passes, and stands at the end
    again. *)
Lemma file_step_append (fl lvl : Z) (msg : string) (fd : nat)
    (p content : string) w :
  let wf := handler_step (file_handler fl fd) (makeRecord lvl msg) w in
  let line := lines_of (Formatter_format LevelnameMessage) fl [(lvl, msg)] in
  open_files w !! fd = Some (mkOpenFile p (String.length content)) →
  files w !! p = Some content →
  files wf !! p = Some (content ++ line)
  ∧ open_files wf !! fd = Some (mkOpenFile p (String.length (content ++ line)))
  ∧ stderr wf = stderr w.
Proof.
  intros wf line Hfd Hp. subst wf line.
  unfold handler_step, Handler_handle. cbn [levelno makeRecord hlevel
    file_handler lines_of stream stream_write]. rewrite !append_empty_r.
  destruct (lvl >=? fl).
  - unfold write_fd. rewrite Hfd.
    cbn [files open_files stderr set_files path pos].
    rewrite lookup_insert_eq, Hp. cbn [default]. rewrite write_at_end.
    split; [done|]. split; [|done].
    rewrite list_lookup_insert_eq by (by eapply lookup_lt_Some).
    rewrite !length_append. reflexivity.
  - by rewrite append_empty_r.
Qed.

(** The file handler's step when the file was emptied behind its back: the
    line lands at the old offset, after a gap. *)
Lemma file_step_gap (fl lvl : Z) (msg : string) (fd n : nat) (p : string) w :
  let wf := handler_step (file_handler fl fd) (makeRecord lvl msg) w in
  open_files w !! fd = Some (mkOpenFile p n) →
  files w !! p = Some "" →
  fl ≤ lvl →
  files wf !! p =
    Some (nuls n ++ Formatter_format LevelnameMessage (makeRecord lvl msg)
            ++ terminator).
Proof.
  intros wf Hfd Hp Hle. subst wf.
  unfold handler_step, Handler_handle. cbn [levelno makeRecord hlevel
    file_handler stream stream_write].
  replace (lvl >=? fl) with true
    by (symmetry; rewrite Z.geb_leb; apply Z.leb_le; lia).
  unfold write_fd. rewrite Hfd. cbn [files set_files path pos].
  by rewrite lookup_insert_eq, Hp, write_at_gap.
Qed.

(** One logging call on a logger set up by [getLogger] whose file object
    stands at the end of the log file. *)
Lemma Logger_log_appends w r (cl fl : Z) (fd : nat) (p content : string)
    (lvl : Z) (msg : string) :
  let w' := Logger_log r lvl msg w in
  configured_for w r cl fl fd → DEBUG ≤ lvl →
  open_files w !! fd = Some (mkOpenFile p (String.length content)) →
  files w !! p = Some content →
  configured_for w' r cl fl fd
  ∧ open_files w' !! fd =
      Some (mkOpenFile p
              (String.length
                 (content ++ lines_of (Formatter_format LevelnameMessage) fl
                                      [(lvl, msg)])))
  ∧ files w' !! p =
      Some (content ++ lines_of (Formatter_format LevelnameMessage) fl
                                [(lvl, msg)])
  ∧ stderr w' =
      stderr w ++ lines_of (ColoredFormatter.format LevelnameMessage) cl
                           [(lvl, msg)]
  ∧ environ w' = environ w ∧ unwritable w' = unwritable w.
Proof.
  intros w' Hconf Hlvl Hfd Hp. subst w'.
  rewrite (Logger_log_configured w r cl fl fd) by done.
  set (record := makeRecord lvl msg).
  set (wc := handler_step (console_handler cl) record w).
  destruct (console_step_effect cl lvl msg w) as (Hcerr & Hcf & Hco).
  fold record wc in Hcerr, Hcf, Hco.
  destruct (handler_step_outside (console_handler cl) record w)
    as (Hr1 & Hd1 & Hm1 & He1 & Hu1). fold wc in Hr1, Hd1, Hm1, He1, Hu1.
  destruct (handler_step_outside (file_handler fl fd) record wc)
    as (Hr2 & Hd2 & Hm2 & He2 & Hu2).
  destruct (file_step_append fl lvl msg fd p content wc)
    as (Hff & Hfo & Hferr); [by rewrite Hco | by rewrite Hcf |].
  fold record in Hff, Hfo, Hferr.
  split.
  { apply (configured_for_registry w); [congruence..|done]. }
  repeat split; try done; congruence.
Qed.

Lemma lines_of_cons (fmt : LogRecord → string) (threshold lvl : Z)
    (msg : string) (calls : list (Z * string)) :
  lines_of fmt threshold ((lvl, msg) :: calls) =
    lines_of fmt threshold [(lvl, msg)] ++ lines_of fmt threshold calls.
Proof. cbn [lines_of]. by rewrite append_empty_r. Qed.

(** A list of logging calls on such a logger. *)
Lemma log_all_appends w r (cl fl : Z) (fd : nat) (p content : string)
    (calls : list (Z * string)) :
  let w' := log_all r calls w in
  configured_for w r cl fl fd →
  Forall (λ call, DEBUG ≤ call.1) calls →
  open_files w !! fd = Some (mkOpenFile p (String.length content)) →
  files w !! p = Some content →
  configured_for w' r cl fl fd
  ∧ open_files w' !! fd =
      Some (mkOpenFile p
              (String.length
                 (content ++ lines_of (Formatter_format LevelnameMessage) fl
                                      calls)))
  ∧ files w' !! p =
      Some (content ++ lines_of (Formatter_format LevelnameMessage) fl calls)
  ∧ stderr w' =
      stderr w ++ lines_of (ColoredFormatter.format LevelnameMessage) cl calls
  ∧ environ w' = environ w ∧ unwritable w' = unwritable w.
Proof.
  revert w content.
  induction calls as [|[lvl msg] calls IH]; intros w content w' Hconf Hall
    Hfd Hp; subst w'.
  - cbn [log_all lines_of]. by rewrite !append_empty_r.
  - apply Forall_cons in Hall as [Hlvl Hall]. cbn [log_all].
    destruct (Logger_log_appends w r cl fl fd p content lvl msg)
      as (Hconf1 & Hfd1 & Hp1 & Herr1 & Henv1 & Hbad1); try done.
    destruct (IH _ _ Hconf1 Hall Hfd1 Hp1)
      as (Hconf2 & Hfd2 & Hp2 & Herr2 & Henv2 & Hbad2).
    rewrite Herr1 in Herr2. rewrite append_assoc in Hfd2, Hp2, Herr2.
    rewrite !(lines_of_cons _ _ lvl msg calls).
    split; [exact Hconf2|]. repeat split; try done; congruence.
Qed.

End Calls.
(** ** Logging through the two handlers *)

Section Logging.

Implicit Types (w : World) (name : string) (r : LoggerRef).

(** The first use of a name leaves the logger set up, its file object at
    the start of the empty log file. *)
Lemma getLogger_sets_up w name (cl fl : Z) :
  let r := logger_named name in
  let p := log_file_path (environ w) in
  let w1 := world_after (getLogger name) w in
  let fd := length (open_files w) in
  registry_ok w →
  first_use w name →
  _nameToLevel (console_log_level (environ w)) = Some cl →
  _nameToLevel (file_log_level (environ w)) = Some fl →
  configured_for w1 r cl fl fd
  ∧ open_files w1 !! fd = Some (mkOpenFile p (String.length ""))
  ∧ files w1 !! p = Some ""
  ∧ stderr w1 = stderr w
  ∧ environ w1 = environ w ∧ unwritable w1 = unwritable w
  ∧ registry_ok w1.
Proof.
  intros r p w1 fd Hreg (Hhas & Hdis & Hman & Hok) Hcl Hfl.
  destruct (getLogger_first_use w name cl fl Hhas Hcl Hfl Hok)
    as (_ & Hown & Hup & Hfiles & Hofs & _).
  specialize (Hup Hreg).
  destruct (getLogger_outside w name) as (Henv & Hm & Hbad & Herr).
  fold r p w1 in Hown, Hup, Henv, Hm, Hbad, Herr, Hfiles, Hofs.
  fold r in Hhas, Hdis.
  apply fields_eq in Hown as (Hl & Hh & Hp & Hd).
  split.
  { unfold configured_for. rewrite Hh, Hl, Hd, Hp, Hup, Hm.
    repeat split; try done.
    destruct (hasHandlers_false_above _ _ Hhas) as [Hprop|Habove];
      [left | by right].
    pose proof (fields_prepared name w r) as Hf. fold r in Hf.
    rewrite decide_True in Hf by done.
    apply fields_same in Hf as (_ & _ & Hf & _). simpl in Hf. congruence. }
  split; [rewrite Hofs; by apply list_lookup_middle|].
  split; [rewrite Hfiles; apply lookup_insert_eq|].
  repeat (split; [done|]). by apply getLogger_ok.
Qed.

(** One logging call right after the first [getLogger] for a name: the
    console gets the coloured line if the level passes the console
    handler, the file gets the plain line if it passes the file handler. *)
Lemma Logger_log_first_use w name (cl fl lvl : Z) (msg : string) :
  let r := logger_named name in
  let p := log_file_path (environ w) in
  let w1 := world_after (getLogger name) w in
  let w2 := Logger_log r lvl msg w1 in
  let record := makeRecord lvl msg in
  registry_ok w →
  first_use w name →
  _nameToLevel (console_log_level (environ w)) = Some cl →
  _nameToLevel (file_log_level (environ w)) = Some fl →
  DEBUG ≤ lvl →
  stderr w2 =
    (if lvl >=? cl
     then stderr w ++ ColoredFormatter.format LevelnameMessage record
            ++ terminator
     else stderr w)
  ∧ files w2 !! p =
      Some (if lvl >=? fl
            then Formatter_format LevelnameMessage record ++ terminator
            else "").
Proof.
  intros r p w1 w2 record Hreg Hfirst Hcl Hfl Hlvl.
  destruct (getLogger_sets_up w name cl fl Hreg Hfirst Hcl Hfl)
    as (Hconf & Hfd & Hp & Herr & _).
  fold r p w1 in Hconf, Hfd, Hp, Herr.
  destruct (Logger_log_appends w1 r cl fl _ p "" lvl msg Hconf Hlvl Hfd Hp)
    as (_ & _ & Hfile & Hout & _).
  fold w2 in Hfile, Hout. cbn [lines_of] in Hfile, Hout.
  rewrite append_empty_r in Hfile, Hout. rewrite Hfile, Hout, Herr.
  fold record. split.
  - destruct (lvl >=? cl); [done | apply append_empty_r].
  - by destruct (lvl >=? fl).
Qed.

(** Whatever the outcome, the call leaves the logger at level DEBUG and
    does not touch its other switches. *)
Lemma getLogger_logger_fields w name :
  let r := logger_named name in
  let w1 := world_after (getLogger name) w in
  level (the_logger w1 r) = DEBUG
  ∧ disabled (the_logger w1 r) = disabled (the_logger w r)
  ∧ propagate (the_logger w1 r) = propagate (the_logger w r)
  ∧ manager_disable w1 = manager_disable w.
Proof.
  intros r w1. subst w1.
  destruct (getLogger_outside w name) as (_ & Hm & _).
  pose proof (fields_prepared name w r) as Hprep. fold r in Hprep.
  rewrite decide_True in Hprep by done.
  apply fields_eq in Hprep as (Hp1 & _ & Hp3 & Hp2). simpl in Hp1, Hp2, Hp3.
  split; [|split; [|split; [|done]]];
    destruct (getLogger_world_shapes w name)
      as [[_ ->]|(_ & _ & [->|[->|(hc & hf & ->)]])]; fold r; try done;
    by rewrite !the_logger_update, !decide_True, the_logger_opened.
Qed.

(** C5.  [getLogger] leaves the logger at level DEBUG, so the logger
    passes every record at DEBUG or above on to its handlers, and each
    handler applies its own level.  On the first use of a name, in a
    registry as [logging] keeps it ([registry_ok], which holds from the
    start of the process on and through every call): with
    CONSOLE_LOG_LEVEL=ERROR (and a file level of INFO or below, as by
    default) an INFO call writes its line to the file and nothing to the
    console; with FILE_LOG_LEVEL=CRITICAL (and a console level of ERROR or
    below, as by default) an ERROR call writes its line to the console
    and nothing to the file. *)
Theorem getLogger_sinks_filter_independently
    w name (cl fl : Z) (msg : string) :
  let r := logger_named name in
  let p := log_file_path (environ w) in
  let w1 := world_after (getLogger name) w in
  registry_ok w →
  _nameToLevel (console_log_level (environ w)) = Some cl →
  _nameToLevel (file_log_level (environ w)) = Some fl →
  first_use w name →
  level (the_logger w1 r) = DEBUG
  ∧ (∀ lvl, DEBUG ≤ lvl → isEnabledFor w1 r lvl = true)
  ∧ (environ w !! "CONSOLE_LOG_LEVEL" = Some "ERROR" → fl ≤ INFO →
     files (Logger_info r msg w1) !! p
       = Some ("INFO - " ++ msg ++ terminator)
     ∧ stderr (Logger_info r msg w1) = stderr w)
  ∧ (environ w !! "FILE_LOG_LEVEL" = Some "CRITICAL" → cl ≤ ERROR →
     stderr (Logger_error r msg w1)
       = stderr w
           ++ (String Str.ESC "[91m" ++ ("ERROR - " ++ msg)
                 ++ String Str.ESC "[0m")
           ++ terminator
     ∧ files (Logger_error r msg w1) !! p = Some "").
Proof.
  intros r p w1 Hreg Hcl Hfl Hfirst.
  pose proof Hfirst as (Hhas & Hdis & Hman & Hok).
  fold r in Hhas, Hdis. fold p in Hok.
  destruct (getLogger_logger_fields w name) as (Hlevel & Hdis1 & _ & Hm1).
  fold r w1 in Hlevel, Hdis1, Hm1.
  split; [done|]. split.
  { intros lvl Hlvl. unfold isEnabledFor, getEffectiveLevel.
    rewrite lineage_unfold. cbn [getEffectiveLevel_from].
    rewrite Hdis1, Hdis, Hm1, Hlevel.
    replace (manager_disable w >=? lvl) with false
      by (symmetry; rewrite Z.geb_leb; apply Z.leb_gt; lia).
    change (DEBUG =? 0) with false. cbn iota.
    rewrite Z.geb_leb. apply Z.leb_le. lia. }
  split.
  - intros Henv Hle.
    assert (cl = ERROR) as ->.
    { revert Hcl. unfold console_log_level, os_environ_get.
      rewrite Henv. by intros [= <-]. }
    destruct (Logger_log_first_use w name ERROR fl INFO msg)
      as (Herr & Hfile); [done | done | done | done
                          | unfold DEBUG, INFO; lia |].
    fold r p w1 in Herr, Hfile. unfold Logger_info.
    rewrite Herr, Hfile.
    replace (INFO >=? fl) with true
      by (symmetry; rewrite Z.geb_leb; apply Z.leb_le; lia).
    split; reflexivity.
  - intros Henv Hle.
    assert (fl = CRITICAL) as ->.
    { revert Hfl. unfold file_log_level, os_environ_get.
      rewrite Henv. by intros [= <-]. }
    destruct (Logger_log_first_use w name cl CRITICAL ERROR msg)
      as (Herr & Hfile); [done | done | done | done
                          | unfold DEBUG, ERROR; lia |].
    fold r p w1 in Herr, Hfile. unfold Logger_error.
    rewrite Herr, Hfile.
    replace (ERROR >=? cl) with true
      by (symmetry; rewrite Z.geb_leb; apply Z.leb_le; lia).
    split; reflexivity.
Qed.

#[local] Ltac first_use_by_evaluation :=
  repeat split; try reflexivity; vm_compute; intros [=].

Lemma getLogger_sinks_filter_independently_witness :
  (let w1 := world_after (getLogger "x") Sample.console_error in
   files (Logger_info (Named "x") "hello" w1) !! "./app.log"
     = Some ("INFO - hello" ++ terminator)
   ∧ stderr (Logger_info (Named "x") "hello" w1) = "")
  ∧ (let w1 := world_after (getLogger "x") Sample.file_critical in
     stderr (Logger_error (Named "x") "oops" w1)
       = (String Str.ESC "[91m" ++ "ERROR - oops" ++ String Str.ESC "[0m")
           ++ terminator
     ∧ files (Logger_error (Named "x") "oops" w1) !! "./app.log" = Some "").
Proof.
  split.
  - destruct (getLogger_sinks_filter_independently
                Sample.console_error "x" ERROR DEBUG "hello")
      as (_ & _ & H & _).
    + apply registry_ok_initial.
    + reflexivity.
    + reflexivity.
    + first_use_by_evaluation.
    + apply H; [reflexivity | unfold DEBUG, INFO; lia].
  - destruct (getLogger_sinks_filter_independently
                Sample.file_critical "x" INFO CRITICAL "oops")
      as (_ & _ & _ & H).
    + apply registry_ok_initial.
    + reflexivity.
    + reflexivity.
    + first_use_by_evaluation.
    + apply H; [reflexivity | unfold INFO, ERROR; lia].
Defined.

(** C9.  With LOG_FILE_DIR and LOG_FILE_NAME unset the log file is
    "./app.log".  On the first use of a name, in a registry as [logging]
    keeps it ([registry_ok]), with a file level of INFO or below (as by
    default), the file holds after one INFO call exactly the plain line
    "INFO - <message>" and a newline: no colour code is added. *)
Theorem getLogger_default_file w name (cl fl : Z) (msg : string) :
  let r := logger_named name in
  let w1 := world_after (getLogger name) w in
  environ w !! "LOG_FILE_DIR" = None →
  environ w !! "LOG_FILE_NAME" = None →
  log_file_path (environ w) = "./app.log"
  ∧ (registry_ok w →
     _nameToLevel (console_log_level (environ w)) = Some cl →
     _nameToLevel (file_log_level (environ w)) = Some fl →
     fl ≤ INFO →
     first_use w name →
     files (Logger_info r msg w1) !! "./app.log"
       = Some ("INFO - " ++ msg ++ String Str.LF "")).
Proof.
  intros r w1 Hdir Hname.
  assert (log_file_path (environ w) = "./app.log") as Hpath.
  { unfold log_file_path, log_file_dir, log_file_name, os_environ_get.
    by rewrite Hdir, Hname. }
  split; [done|]. intros Hreg Hcl Hfl Hle Hfirst.
  destruct (Logger_log_first_use w name cl fl INFO msg)
    as (_ & Hfile); [done | done | done | done | unfold DEBUG, INFO; lia |].
  fold r w1 in Hfile. rewrite Hpath in Hfile. unfold Logger_info.
  rewrite Hfile.
  replace (INFO >=? fl) with true
    by (symmetry; rewrite Z.geb_leb; apply Z.leb_le; lia).
  reflexivity.
Qed.

Lemma getLogger_default_file_witness :
  let w1 := world_after (getLogger "x") Sample.fresh in
  log_file_path (environ Sample.fresh) = "./app.log"
  ∧ files (Logger_info (Named "x") "hello" w1) !! "./app.log"
      = Some ("INFO - hello" ++ String Str.LF "").
Proof.
  destruct (getLogger_default_file Sample.fresh "x" INFO DEBUG "hello")
    as (H1 & H2).
  - reflexivity.
  - reflexivity.
  - split; [exact H1|]. apply H2.
    + apply registry_ok_initial.
    + reflexivity.
    + reflexivity.
    + unfold DEBUG, INFO. lia.
    + first_use_by_evaluation.
Defined.

End Logging.
(** ** Outcomes and side effects of [getLogger] *)

Section Outcomes.

Implicit Types (w : World) (name : string) (r : LoggerRef).

(** X1.  [getLogger] returns exactly when both level names are known to
    [logging] and the log file can be opened; what it returns is then the
    logger of the given name. *)
Theorem getLogger_returns_iff w name r :
  outcome (getLogger name) w = inr r
  ↔ r = logger_named name
    ∧ is_Some (_nameToLevel (console_log_level (environ w)))
    ∧ is_Some (_nameToLevel (file_log_level (environ w)))
    ∧ log_file_path (environ w) ∉ unwritable w.
Proof.
  unfold outcome. rewrite getLogger_run. simpl.
  destruct (_nameToLevel (console_log_level (environ w))) as [cl|];
    cbn [snd].
  - case_decide; cbn [snd].
    + split; [done | by intros (_ & _ & _ & ?)].
    + destruct (_nameToLevel (file_log_level (environ w))) as [fl|];
        cbn [snd].
      * split; [intros [= <-]; by repeat split | by intros [-> _]].
      * split; [done | by intros (_ & _ & [? [=]] & _)].
  - split; [done | by intros (_ & [? [=]] & _)].
Qed.

(** X2.  Whatever the outcome, also when it raises, the call leaves the
    named logger at level DEBUG, so DEBUG is its effective level whatever
    level it or its ancestors had before; it keeps the logger's [propagate]
    and [disabled] switches. *)
Theorem getLogger_always_sets_level w name :
  let r := logger_named name in
  let w' := world_after (getLogger name) w in
  level (the_logger w' r) = DEBUG
  ∧ getEffectiveLevel w' r = DEBUG
  ∧ propagate (the_logger w' r) = propagate (the_logger w r)
  ∧ disabled (the_logger w' r) = disabled (the_logger w r).
Proof.
  intros r w'.
  destruct (getLogger_logger_fields w name) as (Hl & Hd & Hp & _).
  fold r w' in Hl, Hd, Hp. repeat split; try done.
  unfold getEffectiveLevel. rewrite lineage_unfold.
  cbn [getEffectiveLevel_from]. by rewrite Hl.
Qed.

(** X3.  Whatever the outcome, the call changes the level, the handlers,
    the [propagate] flag and the [disabled] flag of no other logger (it can
    change which logger is their parent), writes nothing to the console,
    changes neither the environment nor [logging.disable], changes no file
    other than the log file, and keeps every file object that existed, with
    its position, open if it was open. *)
Theorem getLogger_frame w name :
  let r := logger_named name in
  let p := log_file_path (environ w) in
  let w' := world_after (getLogger name) w in
  (∀ r', r' ≠ r → fields (the_logger w' r') = fields (the_logger w r'))
  ∧ stderr w' = stderr w
  ∧ environ w' = environ w
  ∧ manager_disable w' = manager_disable w
  ∧ (∀ q, q ≠ p → files w' !! q = files w !! q)
  ∧ (∀ fd f, open_files w !! fd = Some f → open_files w' !! fd = Some f)
  ∧ (∀ fd, (fd < length (open_files w))%nat → fd ∈ closed w' → fd ∈ closed w).
Proof.
  intros r p w'.
  destruct (getLogger_outside w name) as (He & Hm & _ & Hs).
  fold w' in He, Hm, Hs.
  destruct (prepared_frame name w) as (_ & _ & Hf & _ & Ho & _).
  pose proof (prepared_closed name w) as Hc.
  assert (∀ r', r' ≠ r →
            fields (the_logger (prepared name w) r') = fields (the_logger w r'))
    as Hother.
  { intros r' Hne. rewrite fields_prepared. fold r. by rewrite decide_False. }
  split; [|split; [done|split; [done|split; [done|]]]]; subst w';
    destruct (getLogger_world_shapes w name)
      as [[_ ->]|(_ & _ & [->|[->|(hc & hf & ->)]])]; fold r p; try done.
  - intros r' Hne. rewrite !the_logger_update, !decide_False by done.
    rewrite the_logger_opened. by apply Hother.
  - rewrite Hf, Ho, Hc. by repeat split.
  - cbn [files open_files closed opened set_files].
    rewrite Hf, Ho, Hc. repeat split; try done.
    + intros q Hq. by rewrite lookup_insert_ne.
    + intros fd f Hfd. by apply lookup_app_l_Some.
  - cbn [files open_files closed opened set_files close_fd set_closed].
    rewrite Hf, Ho, Hc. repeat split; try done.
    + intros q Hq. by rewrite lookup_insert_ne.
    + intros fd f Hfd. by apply lookup_app_l_Some.
    + intros fd Hlt [Heq%elem_of_singleton|Hin]%elem_of_union; [lia | done].
  - destruct (update_logger_outside r (append_handler hf)
                (update_logger r (append_handler hc)
                   (opened p (prepared name w))))
      as (_ & _ & -> & _ & -> & -> & _).
    destruct (update_logger_outside r (append_handler hc)
                (opened p (prepared name w)))
      as (_ & _ & -> & _ & -> & -> & _).
    cbn [files open_files closed opened set_files].
    rewrite Hf, Ho, Hc. repeat split; try done.
    + intros q Hq. by rewrite lookup_insert_ne.
    + intros fd f Hfd. by apply lookup_app_l_Some.
Qed.

Lemma opened_files p w :
  files (opened p w) = <[p := ""]> (files w)
  ∧ open_files (opened p w) = (open_files w ++ [mkOpenFile p 0])%list.
Proof. done. Qed.

(** The file system after the call, by the point the call got to. *)
Lemma getLogger_files w name :
  let p := log_file_path (environ w) in
  let w' := world_after (getLogger name) w in
  ((_nameToLevel (console_log_level (environ w)) = None ∨ p ∈ unwritable w)
   ∧ files w' = files w ∧ open_files w' = open_files w)
  ∨ (is_Some (_nameToLevel (console_log_level (environ w)))
     ∧ (p ∉ unwritable w)
     ∧ files w' = <[p := ""]> (files w)
     ∧ open_files w' = (open_files w ++ [mkOpenFile p 0])%list).
Proof.
  intros p w'. subst w'.
  destruct (prepared_frame name w) as (_ & _ & Hf & _ & Ho & _).
  destruct (getLogger_world_shapes w name)
    as [[Hearly ->]|(Hcl & Hok & [->|[->|(hc & hf & ->)]])]; fold p.
  - left. by rewrite Hf, Ho.
  - right. destruct (opened_files p (prepared name w)) as [-> ->].
    by rewrite Hf, Ho.
  - right. cbn [files open_files close_fd set_closed].
    destruct (opened_files p (prepared name w)) as [-> ->].
    by rewrite Hf, Ho.
  - right.
    destruct (update_logger_outside (logger_named name) (append_handler hf)
                (update_logger (logger_named name) (append_handler hc)
                   (opened p (prepared name w))))
      as (_ & _ & -> & _ & -> & _).
    destruct (update_logger_outside (logger_named name) (append_handler hc)
                (opened p (prepared name w)))
      as (_ & _ & -> & _ & -> & _).
    destruct (opened_files p (prepared name w)) as [-> ->].
    by rewrite Hf, Ho.
Qed.

(** X4.  A call that fails on the console level (line 52) or on opening the
    file (line 57) has not touched the file system: every file has the
    content it had, and no file object was added. *)
Theorem getLogger_early_failure_keeps_files w name :
  let w' := world_after (getLogger name) w in
  _nameToLevel (console_log_level (environ w)) = None
  ∨ log_file_path (environ w) ∈ unwritable w →
  files w' = files w ∧ open_files w' = open_files w.
Proof.
  intros w' Hearly. subst w'.
  destruct (getLogger_files w name) as [(_ & ? & ?)|(Hcl & Hok & _)];
    [done|].
  destruct Hearly as [Hnone|Hbad]; [|done].
  rewrite Hnone in Hcl. by destruct Hcl.
Qed.

Lemma getLogger_early_failure_keeps_files_witness :
  let w := set_files (λ fs, <["./app.log" := "kept"]> fs) id
             (initial_world {["CONSOLE_LOG_LEVEL" := "verbose"]} ∅ ∅) in
  files (world_after (getLogger "x") w) !! "./app.log" = Some "kept".
Proof.
  intros w.
  destruct (getLogger_early_failure_keeps_files w "x") as [-> _].
  - left. reflexivity.
  - reflexivity.
Defined.



(** X6.  Every call that returns, the first for a name or a later one, has
    opened the log file in write mode: the file is empty when the call
    returns, whatever it held.  The file object the call opened is closed
    again by then when the call found handlers, since its file handler was
    not attached and nothing refers to it; it stays open, in the attached
    handler, when the call found none. *)
Theorem getLogger_return_empties_file w name r :
  let p := log_file_path (environ w) in
  let w' := world_after (getLogger name) w in
  outcome (getLogger name) w = inr r →
  files w' !! p = Some ""
  ∧ (hasHandlers (prepared name w) r = true →
     closed w' = {[length (open_files w)]} ∪ closed w)
  ∧ (hasHandlers (prepared name w) r = false → closed w' = closed w).
Proof.
  intros p w'. subst w'. unfold outcome, world_after.
  rewrite getLogger_run. simpl. fold p.
  destruct (_nameToLevel (console_log_level (environ w))) as [cl|]; [|done].
  case_decide; [done|].
  destruct (_nameToLevel (file_log_level (environ w))) as [fl|]; [|done].
  cbn [fst snd]. intros [= <-]. rewrite hasHandlers_opened.
  pose proof (prepared_closed name w) as Hc.
  destruct (hasHandlers (prepared name w) (logger_named name)).
  - cbn [files closed close_fd set_closed opened set_files].
    rewrite Hc. split; [apply lookup_insert_eq | by split].
  - destruct (update_logger_outside (logger_named name)
                (append_handler (file_handler fl (length (open_files w))))
                (update_logger (logger_named name)
                   (append_handler (console_handler cl))
                   (opened p (prepared name w))))
      as (_ & _ & -> & _ & _ & -> & _).
    destruct (update_logger_outside (logger_named name)
                (append_handler (console_handler cl))
                (opened p (prepared name w)))
      as (_ & _ & -> & _ & _ & -> & _).
    cbn [files closed opened set_files].
    rewrite Hc. split; [apply lookup_insert_eq | by split].
Qed.

Lemma getLogger_return_empties_file_witness :
  let w := set_files (λ fs, <["./app.log" := "old log"]> fs) id
             Sample.fresh in
  files w !! "./app.log" = Some "old log"
  ∧ files (world_after (getLogger "x") w) !! "./app.log" = Some "".
Proof.
  intros w. split; [reflexivity|].
  apply (getLogger_return_empties_file w "x" (Named "x")).
  reflexivity.
Defined.

End Outcomes.

(** ** Logging call after logging call *)

Section Sequences.

Implicit Types (w : World) (name : string) (r : LoggerRef).

#[local] Ltac by_evaluation :=
  repeat split; try reflexivity; vm_compute; intros [=].

(** X7.  With CONSOLE_LOG_LEVEL and FILE_LOG_LEVEL both unset (lines 41 and
    42: INFO for the console, DEBUG for the file), on the first use of a
    name in a registry as [logging] keeps it: a DEBUG call writes its plain line to the file and nothing to the
    console; an INFO call writes its plain line to the file and its white
    line to the console. *)
Theorem getLogger_default_levels w name (msg : string) :
  let r := logger_named name in
  let p := log_file_path (environ w) in
  let w1 := world_after (getLogger name) w in
  registry_ok w →
  environ w !! "CONSOLE_LOG_LEVEL" = None →
  environ w !! "FILE_LOG_LEVEL" = None →
  first_use w name →
  (files (Logger_debug r msg w1) !! p
     = Some ("DEBUG - " ++ msg ++ String Str.LF "")
   ∧ stderr (Logger_debug r msg w1) = stderr w)
  ∧ (files (Logger_info r msg w1) !! p
       = Some ("INFO - " ++ msg ++ String Str.LF "")
     ∧ stderr (Logger_info r msg w1)
       = stderr w
           ++ (String Str.ESC "[97m" ++ ("INFO - " ++ msg)
                 ++ String Str.ESC "[0m")
           ++ String Str.LF "").
Proof.
  intros r p w1 Hreg Hc Hf Hfirst.
  assert (_nameToLevel (console_log_level (environ w)) = Some INFO) as Hcl
    by (unfold console_log_level, os_environ_get; by rewrite Hc).
  assert (_nameToLevel (file_log_level (environ w)) = Some DEBUG) as Hfl
    by (unfold file_log_level, os_environ_get; by rewrite Hf).
  split.
  - destruct (Logger_log_first_use w name INFO DEBUG DEBUG msg)
      as (Herr & Hfile); [done | done | done | done
                          | unfold DEBUG; lia |].
    fold r p w1 in Herr, Hfile. unfold Logger_debug.
    rewrite Herr, Hfile. split; reflexivity.
  - destruct (Logger_log_first_use w name INFO DEBUG INFO msg)
      as (Herr & Hfile); [done | done | done | done
                          | unfold DEBUG, INFO; lia |].
    fold r p w1 in Herr, Hfile. unfold Logger_info.
    rewrite Herr, Hfile. split; reflexivity.
Qed.

Lemma getLogger_default_levels_witness :
  let w1 := world_after (getLogger "x") Sample.fresh in
  files (Logger_debug (Named "x") "probe" w1) !! "./app.log"
    = Some ("DEBUG - probe" ++ String Str.LF "")
  ∧ stderr (Logger_debug (Named "x") "probe" w1) = "".
Proof.
  destruct (getLogger_default_levels Sample.fresh "x" "probe") as [H _].
  - apply registry_ok_initial.
  - reflexivity.
  - reflexivity.
  - by_evaluation.
  - exact H.
Defined.

(** X8.  After the first use of a name, in a registry as [logging] keeps
    it, a series of logging calls at DEBUG or above leaves in the log file exactly the plain lines of the calls that
    pass the file level, in the order of the calls, and has added to the
    console exactly the coloured lines of the calls that pass the console
    level, in the same order. *)
Theorem getLogger_then_log_all w name (cl fl : Z)
    (calls : list (Z * string)) :
  let r := logger_named name in
  let p := log_file_path (environ w) in
  let w1 := world_after (getLogger name) w in
  registry_ok w →
  first_use w name →
  _nameToLevel (console_log_level (environ w)) = Some cl →
  _nameToLevel (file_log_level (environ w)) = Some fl →
  Forall (λ call, DEBUG ≤ call.1) calls →
  files (log_all r calls w1) !! p
    = Some (lines_of (Formatter_format LevelnameMessage) fl calls)
  ∧ stderr (log_all r calls w1)
    = stderr w ++ lines_of (ColoredFormatter.format LevelnameMessage) cl calls.
Proof.
  intros r p w1 Hreg Hfirst Hcl Hfl Hall.
  destruct (getLogger_sets_up w name cl fl Hreg Hfirst Hcl Hfl)
    as (Hconf & Hfd & Hp & Herr & _).
  fold r p w1 in Hconf, Hfd, Hp, Herr.
  destruct (log_all_appends w1 r cl fl _ p "" calls Hconf Hall Hfd Hp)
    as (_ & _ & Hfile & Hout & _).
  split; [exact Hfile|]. by rewrite Hout, Herr.
Qed.

Lemma getLogger_then_log_all_witness :
  let w1 := world_after (getLogger "x") Sample.fresh in
  let calls := [(INFO, "start"); (DEBUG, "detail"); (ERROR, "failed")] in
  files (log_all (Named "x") calls w1) !! "./app.log"
    = Some ("INFO - start" ++ String Str.LF ("DEBUG - detail"
              ++ String Str.LF ("ERROR - failed" ++ String Str.LF ""))).
Proof.
  intros w1 calls.
  destruct (getLogger_then_log_all Sample.fresh "x" INFO DEBUG calls)
    as [H _].
  - apply registry_ok_initial.
  - by_evaluation.
  - reflexivity.
  - reflexivity.
  - repeat constructor; simpl; unfold DEBUG, INFO, ERROR; lia.
  - etransitivity; [exact H | reflexivity].
Defined.

(** For a logger that is set up, lines 47 and 48 change nothing in the
    registry. *)
Lemma prepared_noop w name (cl fl : Z) (fd : nat) :
  configured_for w (logger_named name) cl fl fd →
  root (prepared name w) = root w
  ∧ loggerDict (prepared name w) = loggerDict w.
Proof.
  intros (Hh & Hl & _). revert Hh Hl. rewrite prepared_eq.
  unfold registered, world_after, logging_getLogger, logger_named,
    Manager_getLogger.
  destruct (_ || _); simpl.
  - intros _ Hl. split; [|done]. destruct (root w). simpl in Hl. by subst.
  - destruct (loggerDict w !! name) as [[l|m]|] eqn:Hn; simpl; try done.
    intros _ Hl. split; [done|]. rewrite Hn. simpl.
    apply insert_id. rewrite Hn. destruct l. simpl in Hl. by subst.
Qed.

(** X9.  A later [getLogger] for the same name, made after the first use
    of the name (in a registry as [logging] keeps it) and after some lines
    were logged, returns and empties the log file, but the logger keeps
    writing through the file object of its first call, which still stands
    where it stood.  The next line that passes the file level therefore
    lands at that offset: the file then holds as many NUL characters as the
    lines lost were long, followed by the new line. *)
Theorem getLogger_again_leaves_gap w name (cl fl : Z)
    (calls : list (Z * string)) (lvl : Z) (msg : string) :
  let r := logger_named name in
  let p := log_file_path (environ w) in
  let w1 := world_after (getLogger name) w in
  let w2 := log_all r calls w1 in
  let w3 := world_after (getLogger name) w2 in
  let w4 := Logger_log r lvl msg w3 in
  let lost := lines_of (Formatter_format LevelnameMessage) fl calls in
  registry_ok w →
  first_use w name →
  _nameToLevel (console_log_level (environ w)) = Some cl →
  _nameToLevel (file_log_level (environ w)) = Some fl →
  Forall (λ call, DEBUG ≤ call.1) calls →
  DEBUG ≤ lvl → fl ≤ lvl →
  files w2 !! p = Some lost
  ∧ outcome (getLogger name) w2 = inr r
  ∧ files w3 !! p = Some ""
  ∧ files w4 !! p =
      Some (nuls (String.length lost)
              ++ Formatter_format LevelnameMessage (makeRecord lvl msg)
              ++ terminator).
Proof.
  intros r p w1 w2 w3 w4 lost Hreg Hfirst Hcl Hfl Hall Hlvl Hle.
  destruct (getLogger_sets_up w name cl fl Hreg Hfirst Hcl Hfl)
    as (Hconf & Hfd & Hp & _ & Henv1 & Hbad1 & _).
  fold r p w1 in Hconf, Hfd, Hp, Henv1, Hbad1.
  set (fd := length (open_files w)) in *.
  destruct (log_all_appends w1 r cl fl fd p "" calls Hconf Hall Hfd Hp)
    as (Hconf2 & Hfd2 & Hfile2 & _ & Henv2 & Hbad2).
  fold w2 lost in Hconf2, Hfd2, Hfile2, Henv2, Hbad2.
  change ("" ++ lost) with lost in Hfd2, Hfile2.
  split; [exact Hfile2|].
  assert (environ w2 = environ w) as Henv by congruence.
  set (fd' := length (open_files w2)).
  assert (getLogger name w2 = (close_fd fd' (opened p (prepared name w2)), inr r))
    as Hrun.
  { rewrite (getLogger_configured w2 name cl fl).
    - by rewrite Henv.
    - apply hasHandlers_own. rewrite handlers_prepared. fold r.
      destruct Hconf2 as (Hh & _). by rewrite Hh.
    - by rewrite Henv.
    - by rewrite Henv.
    - rewrite Henv, Hbad2, Hbad1. by destruct Hfirst as (_ & _ & _ & ?). }
  assert (w3 = close_fd fd' (opened p (prepared name w2))) as Hw3
    by (subst w3; unfold world_after; by rewrite Hrun).
  split; [unfold outcome; by rewrite Hrun|].
  destruct (prepared_frame name w2) as (_ & Hm & _ & _ & Ho & _).
  destruct (prepared_noop w2 name cl fl fd Hconf2) as [Hr Hd].
  assert (files w3 !! p = Some "") as Hp3
    by (rewrite Hw3; apply lookup_insert_eq).
  assert (open_files w3 !! fd = Some (mkOpenFile p (String.length lost)))
    as Hfd3.
  { rewrite Hw3. cbn [open_files close_fd set_closed opened set_files].
    rewrite Ho. by apply lookup_app_l_Some. }
  assert (configured_for w3 r cl fl fd) as Hconf3.
  { apply (configured_for_registry w2); [by rewrite Hw3..|done]. }
  split; [exact Hp3|]. subst w4.
  rewrite (Logger_log_configured w3 r cl fl fd) by done.
  destruct (console_step_effect cl lvl msg w3) as (_ & Hcf & Hco).
  apply (file_step_gap fl lvl msg fd); [by rewrite Hco | by rewrite Hcf | done].
Qed.

Lemma getLogger_again_leaves_gap_witness :
  let w3 := world_after (getLogger "x") Sample.logged in
  files (Logger_info (Named "x") "again" w3) !! "./app.log"
    = Some (nuls 13 ++ "INFO - again" ++ String Str.LF "").
Proof.
  intros w3.
  destruct (getLogger_again_leaves_gap Sample.fresh "x" INFO DEBUG
              [(INFO, "hello")] INFO "again") as (_ & _ & _ & H).
  - apply registry_ok_initial.
  - by_evaluation.
  - reflexivity.
  - reflexivity.
  - repeat constructor; simpl; unfold DEBUG, INFO; lia.
  - unfold DEBUG, INFO; lia.
  - unfold DEBUG, INFO; lia.
  - etransitivity; [exact H | reflexivity].
Defined.

End Sequences.
(** ** Several loggers *)

Section Several.

Implicit Types (w : World) (name : string) (r : LoggerRef).

(** X10.  When [getLogger] returns, the check of line 63 holds for the
    logger it returns: a handler is found on the logger itself or on an
    ancestor the logger propagates to. *)
Theorem getLogger_returns_with_handlers w name r :
  let w' := world_after (getLogger name) w in
  outcome (getLogger name) w = inr r →
  hasHandlers w' r = true.
Proof.
  intros w' Hret. subst w'. revert Hret. unfold outcome, world_after.
  rewrite getLogger_run. simpl.
  destruct (_nameToLevel (console_log_level (environ w))) as [cl|]; [|done].
  case_decide; [done|].
  destruct (_nameToLevel (file_log_level (environ w))) as [fl|]; [|done].
  cbn [fst snd]. intros [= <-].
  destruct (hasHandlers (opened _ _) (logger_named name)) eqn:Hhas.
  - by rewrite (hasHandlers_same (opened (log_file_path (environ w))
                                    (prepared name w))).
  - apply hasHandlers_own.
    rewrite !the_logger_update, !decide_True by done.
    cbn [append_handler handlers]. by destruct (handlers _).
Qed.

Lemma getLogger_returns_with_handlers_witness :
  hasHandlers (world_after (getLogger "x.y") Sample.configured) (Named "x.y")
  = true.
Proof.
  apply (getLogger_returns_with_handlers Sample.configured "x.y").
  reflexivity.
Defined.

(** A call changes the level, the handlers and the flags of no logger but
    its own. *)
Lemma getLogger_other_fields w name r' :
  r' ≠ logger_named name →
  fields (the_logger (world_after (getLogger name) w) r')
  = fields (the_logger w r').
Proof.
  intros Hne.
  assert (fields (the_logger (prepared name w) r') = fields (the_logger w r'))
    as Hother by (rewrite fields_prepared; by rewrite decide_False).
  destruct (getLogger_world_shapes w name)
    as [[_ ->]|(_ & _ & [->|[->|(hc & hf & ->)]])]; try done.
  rewrite !the_logger_update, !decide_False by done.
  by rewrite the_logger_opened.
Qed.

(** The file handler's step at any offset. *)
Lemma file_step_at (fl lvl : Z) (msg : string) (fd n : nat) (p : string) w :
  let wf := handler_step (file_handler fl fd) (makeRecord lvl msg) w in
  open_files w !! fd = Some (mkOpenFile p n) →
  fl ≤ lvl →
  files wf !! p =
    Some (write_at n (Formatter_format LevelnameMessage (makeRecord lvl msg)
                        ++ terminator)
                   (default "" (files w !! p))).
Proof.
  intros wf Hfd Hle. subst wf.
  unfold handler_step, Handler_handle. cbn [levelno makeRecord hlevel
    file_handler stream stream_write].
  replace (lvl >=? fl) with true
    by (symmetry; rewrite Z.geb_leb; apply Z.leb_le; lia).
  unfold write_fd. rewrite Hfd. cbn [files set_files path pos].
  by rewrite lookup_insert_eq.
Qed.

(** A logging call moves no file object but the logger's own. *)
Lemma Logger_log_other_fd w r (cl fl : Z) (fd fd' : nat) (lvl : Z)
    (msg : string) :
  configured_for w r cl fl fd → DEBUG ≤ lvl → fd' ≠ fd →
  open_files (Logger_log r lvl msg w) !! fd' = open_files w !! fd'.
Proof.
  intros Hconf Hlvl Hne.
  rewrite (Logger_log_configured w r cl fl fd) by done.
  destruct (console_step_effect cl lvl msg w) as (_ & _ & Hco).
  rewrite <- Hco.
  set (wc := handler_step (console_handler cl) (makeRecord lvl msg) w).
  unfold handler_step, Handler_handle. cbn [levelno makeRecord hlevel
    file_handler stream stream_write].
  destruct (lvl >=? fl); [|done]. unfold write_fd.
  destruct (open_files wc !! fd) as [f|]; [|done].
  cbn [open_files set_files]. by rewrite list_lookup_insert_ne.
Qed.

Lemma Logger_log_keeps_registry w r (cl fl : Z) (fd : nat) (lvl : Z)
    (msg : string) :
  configured_for w r cl fl fd → DEBUG ≤ lvl →
  root (Logger_log r lvl msg w) = root w
  ∧ loggerDict (Logger_log r lvl msg w) = loggerDict w
  ∧ manager_disable (Logger_log r lvl msg w) = manager_disable w.
Proof.
  intros Hconf Hlvl.
  rewrite (Logger_log_configured w r cl fl fd) by done.
  set (record := makeRecord lvl msg).
  destruct (handler_step_outside (console_handler cl) record w)
    as (Hr1 & Hd1 & Hm1 & _).
  destruct (handler_step_outside (file_handler fl fd) record
              (handler_step (console_handler cl) record w))
    as (Hr2 & Hd2 & Hm2 & _).
  repeat split; congruence.
Qed.

(** X11.  Two names for two different loggers, each used for the first
    time (in a registry as [logging] keeps it), the first logger's records reaching no handler above it once both
    calls are made (it does not propagate, or the check finds nothing on its
    chain of parents): each logger gets its own console handler and its own
    file handler, and the two file handlers hold two file objects on the same
    path, each starting at offset 0.  So after an INFO call on the first
    logger and one on the second, the file does not hold two lines: the
    second line is written over the beginning of the first. *)
Theorem getLogger_two_names_overwrite w (a b : string) (cl fl : Z)
    (m1 m2 : string) :
  let ra := logger_named a in
  let rb := logger_named b in
  let p := log_file_path (environ w) in
  let w1 := world_after (getLogger a) w in
  let w2 := world_after (getLogger b) w1 in
  let w3 := Logger_info ra m1 w2 in
  let w4 := Logger_info rb m2 w3 in
  let line1 := "INFO - " ++ m1 ++ String Str.LF "" in
  let line2 := "INFO - " ++ m2 ++ String Str.LF "" in
  registry_ok w →
  ra ≠ rb →
  first_use w a → first_use w1 b →
  (propagate (the_logger w2 ra) = false
   ∨ hasHandlers_from (parent_loggers w2 ra) = false) →
  _nameToLevel (console_log_level (environ w)) = Some cl →
  _nameToLevel (file_log_level (environ w)) = Some fl →
  fl ≤ INFO →
  outcome (getLogger a) w = inr ra
  ∧ outcome (getLogger b) w1 = inr rb
  ∧ handlers (the_logger w2 ra) =
      [console_handler cl; file_handler fl (length (open_files w))]
  ∧ handlers (the_logger w2 rb) =
      [console_handler cl; file_handler fl (S (length (open_files w)))]
  ∧ files w3 !! p = Some line1
  ∧ files w4 !! p = Some (line2 ++ Str.drop (String.length line2) line1).
Proof.
  intros ra rb p w1 w2 w3 w4 line1 line2 Hreg Hab Hfa Hfb Hup Hcl Hfl Hle.
  set (n := length (open_files w)).
  (* the first call *)
  destruct (getLogger_sets_up w a cl fl Hreg Hfa Hcl Hfl)
    as (Hconf_a1 & Hfd_a1 & _ & _ & Henv1 & Hbad1 & Hreg1).
  destruct (getLogger_first_use w a cl fl) as (Hret_a & _ & _ & _ & Hofs1 & _);
    [by destruct Hfa | done | done | by destruct Hfa as (_&_&_&?) |].
  fold ra p w1 n in Hconf_a1, Hfd_a1, Henv1, Hbad1, Hofs1, Hret_a, Hreg1.
  (* the second call *)
  assert (_nameToLevel (console_log_level (environ w1)) = Some cl) as Hcl1
    by (by rewrite Henv1).
  assert (_nameToLevel (file_log_level (environ w1)) = Some fl) as Hfl1
    by (by rewrite Henv1).
  destruct (getLogger_sets_up w1 b cl fl Hreg1 Hfb Hcl1 Hfl1)
    as (Hconf_b2 & Hfd_b2 & Hp2 & _).
  destruct (getLogger_first_use w1 b cl fl) as (Hret_b & _ & _ & _ & Hofs2 & _);
    [by destruct Hfb | done | done | by destruct Hfb as (_&_&_&?) |].
  rewrite Henv1 in Hfd_b2, Hp2, Hofs2.
  fold rb p w2 in Hconf_b2, Hfd_b2, Hp2, Hofs2, Hret_b.
  assert (length (open_files w1) = S n) as Hlen1.
  { rewrite Hofs1, length_app. simpl. lia. }
  rewrite Hlen1 in Hconf_b2, Hfd_b2.
  (* the first logger has the handlers the first call gave it *)
  assert (configured_for w2 ra cl fl n) as Hconf_a2.
  { pose proof (getLogger_other_fields w1 b ra Hab) as Hsame.
    fold w2 in Hsame. apply fields_same in Hsame as (Hl & Hh & _ & Hd).
    destruct Hconf_a1 as (Hh1 & Hl1 & Hd1 & _ & Hm1).
    destruct (getLogger_outside w1 b) as (_ & Hm2 & _). fold w2 in Hm2.
    unfold configured_for. rewrite Hh, Hl, Hd, Hm2. by repeat split. }
  assert (open_files w2 !! n = Some (mkOpenFile p (String.length "")))
    as Hfd_a2 by (rewrite Hofs2; by apply lookup_app_l_Some).
  split; [done|]. split; [done|].
  split; [by destruct Hconf_a2|]. split; [by destruct Hconf_b2|].
  (* the call on the first logger *)
  assert (DEBUG ≤ INFO) as Hinfo by (unfold DEBUG, INFO; lia).
  destruct (Logger_log_appends w2 ra cl fl n p "" INFO m1
              Hconf_a2 Hinfo Hfd_a2 Hp2) as (_ & _ & Hfile3 & _).
  fold (Logger_info ra m1 w2) in Hfile3. fold w3 in Hfile3.
  assert (files w3 !! p = Some line1) as Hfile3'.
  { rewrite Hfile3. cbn [lines_of].
    replace (INFO >=? fl) with true
      by (symmetry; rewrite Z.geb_leb; apply Z.leb_le; lia).
    by rewrite append_empty_r. }
  split; [exact Hfile3'|].
  (* the call on the second logger *)
  destruct (Logger_log_keeps_registry w2 ra cl fl n INFO m1
              Hconf_a2 Hinfo) as (Hr3 & Hd3 & Hm3).
  fold (Logger_info ra m1 w2) in Hr3, Hd3, Hm3. fold w3 in Hr3, Hd3, Hm3.
  pose proof (configured_for_registry w2 w3 rb cl fl (S n) Hr3 Hd3 Hm3
                Hconf_b2) as Hconf_b3.
  assert (open_files w3 !! S n = Some (mkOpenFile p 0)) as Hfd_b3.
  { subst w3. unfold Logger_info.
    rewrite (Logger_log_other_fd w2 ra cl fl n (S n)); [done..|lia]. }
  subst w4. unfold Logger_info.
  rewrite (Logger_log_configured w3 rb cl fl (S n)) by done.
  destruct (console_step_effect cl INFO m2 w3) as (_ & Hcf & Hco).
  rewrite (file_step_at fl INFO m2 (S n) 0 p); [|by rewrite Hco|done].
  by rewrite Hcf, Hfile3'.
Qed.

#[local] Ltac first_use_evaluated :=
  repeat split; try reflexivity; vm_compute; intros [=].

Lemma getLogger_two_names_overwrite_witness :
  let w2 := world_after (getLogger "web")
              (world_after (getLogger "db") Sample.fresh) in
  let w4 := Logger_info (Named "web") "up"
              (Logger_info (Named "db") "connected" w2) in
  files w4 !! "./app.log"
    = Some ("INFO - up" ++ String Str.LF ("nected" ++ String Str.LF "")).
Proof.
  intros w2 w4.
  destruct (getLogger_two_names_overwrite Sample.fresh "db" "web" INFO DEBUG
              "connected" "up") as (_ & _ & _ & _ & _ & H).
  - apply registry_ok_initial.
  - discriminate.
  - first_use_evaluated.
  - first_use_evaluated.
  - right. reflexivity.
  - reflexivity.
  - reflexivity.
  - unfold DEBUG, INFO; lia.
  - etransitivity; [exact H | reflexivity].
Defined.

End Several.
